(** * LoRa gateway bridge: radio session and message pipeline

    A shallow embedding of [lora_con.py]: the hex codec, the serial command
    channel with its retry loop, the configuration sequence, the message
    processor, the uploader and the receive loop, followed by the properties
    proved about them. *)

From Stdlib Require Import List NArith ZArith Bool String Ascii Lia PrimFloat.
Import ListNotations.

Local Open Scope N_scope.

(** ** Python strings and bytes

    A Python [str] is a sequence of Unicode code points and a [bytes] object a
    sequence of octets; both are lists of [N].  [ord] is then the identity. *)

Definition pystr := list N.
Definition pybytes := list N.

Definition str (s : string) : pystr :=
  map N_of_ascii (list_ascii_of_string s).

Fixpoint pystr_eqb (a b : pystr) : bool :=
  match a, b with
  | [], [] => true
  | x :: a', y :: b' => (x =? y) && pystr_eqb a' b'
  | _, _ => false
  end.

(** [str.isspace] on one code point: the Unicode white-space characters that
    [str.split()] and [str.strip()] use. *)
Definition isspace (c : N) : bool :=
  ((9 <=? c) && (c <=? 13)) || ((28 <=? c) && (c <=? 32)) ||
  (c =? 133) || (c =? 160) || (c =? 5760) ||
  ((8192 <=? c) && (c <=? 8202)) || (c =? 8232) || (c =? 8233) ||
  (c =? 8239) || (c =? 8287) || (c =? 12288).

(** [Py_ISSPACE]: ASCII white space, the characters [bytes.fromhex] skips. *)
Definition Py_ISSPACE (c : N) : bool :=
  ((9 <=? c) && (c <=? 13)) || (c =? 32).

Fixpoint lstrip (s : pystr) : pystr :=
  match s with
  | [] => []
  | c :: s' => if isspace c then lstrip s' else s
  end.

(** [s.strip()] *)
Definition strip (s : pystr) : pystr := rev (lstrip (rev (lstrip s))).

(** [s.split()]: maximal runs of non-white-space characters, in order.
    [cur] holds the current run, reversed. *)
Fixpoint split_from (cur : pystr) (s : pystr) : list pystr :=
  match s with
  | [] => match cur with [] => [] | _ => [rev cur] end
  | c :: s' =>
      if isspace c
      then match cur with
           | [] => split_from [] s'
           | _ => rev cur :: split_from [] s'
           end
      else split_from (c :: cur) s'
  end.

Definition split (s : pystr) : list pystr := split_from [] s.

(** [s.startswith(prefix)] *)
Fixpoint startswith (s prefix : pystr) : bool :=
  match prefix, s with
  | [], _ => true
  | p :: prefix', c :: s' => (p =? c) && startswith s' prefix'
  | _ :: _, [] => false
  end.

(** ** Codec *)

(** The upper-case hexadecimal digit of [d < 16]. *)
Definition hex_digit (d : N) : N :=
  if d <? 10 then 48 + d else 55 + d.

Fixpoint hex_upper_from (fuel : nat) (n : N) (acc : pystr) : pystr :=
  match fuel with
  | O => acc
  | S k =>
      let acc' := hex_digit (n mod 16) :: acc in
      if n / 16 =? 0 then acc' else hex_upper_from k (n / 16) acc'
  end.

(** [format(n, 'X')]: the digits of [n] in base 16, most significant first. *)
Definition hex_upper (n : N) : pystr :=
  hex_upper_from (S (N.size_nat n)) n [].

(** [format(n, '02X')]: zero-padded on the left to a width of at least two. *)
Definition format_02X (n : N) : pystr :=
  let ds := hex_upper n in
  repeat 48 (2 - List.length ds) ++ ds.

(** [string_to_hex]: [''.join(format(ord(c), '02X') for c in input_str)]. *)
Definition string_to_hex (input_str : pystr) : pystr :=
  flat_map format_02X input_str.

(** The value of a hexadecimal digit character, either case. *)
Definition hex_value (c : N) : option N :=
  if (48 <=? c) && (c <=? 57) then Some (c - 48)
  else if (65 <=? c) && (c <=? 70) then Some (c - 55)
  else if (97 <=? c) && (c <=? 102) then Some (c - 87)
  else None.

(** [bytes.fromhex]: two hexadecimal digits per byte, ASCII white space
    skipped between bytes; [None] stands for the [ValueError] it raises. *)
Fixpoint bytes_fromhex (s : pystr) : option pybytes :=
  match s with
  | [] => Some []
  | c :: s' =>
      if Py_ISSPACE c then bytes_fromhex s'
      else
        match hex_value c, s' with
        | Some top, d :: s'' =>
            match hex_value d with
            | Some bot => option_map (cons (top * 16 + bot)) (bytes_fromhex s'')
            | None => None
            end
        | _, _ => None
        end
  end.

(** UTF-8 continuation byte, [10xxxxxx]. *)
Definition is_cont (b : N) : bool := (128 <=? b) && (b <=? 191).

(** One pass of the UTF-8 decoder: [Some cp] for each well-formed sequence and
    [None] for each maximal ill-formed one (an invalid start byte, a sequence
    cut by a byte that cannot continue it, or one cut by the end of input). *)
Fixpoint utf8_scan (bs : pybytes) : list (option N) :=
  match bs with
  | [] => []
  | b0 :: t0 =>
      if b0 <? 128 then Some b0 :: utf8_scan t0
      else if b0 <? 194 then None :: utf8_scan t0
      else if b0 <? 224 then
        match t0 with
        | [] => [None]
        | b1 :: t1 =>
            if is_cont b1
            then Some ((b0 - 192) * 64 + (b1 - 128)) :: utf8_scan t1
            else None :: utf8_scan t0
        end
      else if b0 <? 240 then
        match t0 with
        | [] => [None]
        | b1 :: t1 =>
            if negb (is_cont b1) || ((b0 =? 224) && (b1 <? 160))
               || ((b0 =? 237) && (160 <=? b1))
            then None :: utf8_scan t0
            else
              match t1 with
              | [] => [None]
              | b2 :: t2 =>
                  if is_cont b2
                  then Some ((b0 - 224) * 4096 + (b1 - 128) * 64 + (b2 - 128))
                         :: utf8_scan t2
                  else None :: utf8_scan t1
              end
        end
      else if b0 <? 245 then
        match t0 with
        | [] => [None]
        | b1 :: t1 =>
            if negb (is_cont b1) || ((b0 =? 240) && (b1 <? 144))
               || ((b0 =? 244) && (144 <=? b1))
            then None :: utf8_scan t0
            else
              match t1 with
              | [] => [None]
              | b2 :: t2 =>
                  if negb (is_cont b2) then None :: utf8_scan t1
                  else
                    match t2 with
                    | [] => [None]
                    | b3 :: t3 =>
                        if is_cont b3
                        then Some ((b0 - 240) * 262144 + (b1 - 128) * 4096
                                   + (b2 - 128) * 64 + (b3 - 128))
                               :: utf8_scan t3
                        else None :: utf8_scan t2
                    end
              end
        end
      else None :: utf8_scan t0
  end.

(** [bs.decode('utf-8', errors='ignore')]: ill-formed sequences are dropped. *)
Definition decode_utf8_ignore (bs : pybytes) : pystr :=
  flat_map (fun i => match i with Some cp => [cp] | None => [] end)
           (utf8_scan bs).

(** [bs.decode('utf-8')]: [None] stands for [UnicodeDecodeError]. *)
Definition decode_utf8 (bs : pybytes) : option pystr :=
  if forallb (fun i => match i with Some _ => true | None => false end)
             (utf8_scan bs)
  then Some (decode_utf8_ignore bs) else None.

(** ** Values, exceptions and the Python runtime *)

#[local] Unset Elimination Schemes.

(** What [json.loads] builds.  A [dict] keeps its items in insertion order. *)
Inductive JValue : Type :=
| JNull
| JBool (b : bool)
| JInt (z : Z)
| JFloat (f : float)
| JStr (s : pystr)
| JList (l : list JValue)
| JDict (items : list (pystr * JValue)).

#[local] Set Elimination Schemes.

(** The exception classes below [Exception] that the program meets. *)
Inductive Exception : Type :=
| PlainException (msg : string)
| SerialException
| UnicodeDecodeError
| JSONDecodeError
| RequestException
| AttributeError
| OSError
| RecursionError.

(** [KeyboardInterrupt] derives from [BaseException] only, so that
    [except Exception] lets it through. *)
Inductive BaseException : Type :=
| KeyboardInterrupt
| IsException (e : Exception).

(** The functions of the Python runtime whose code is outside the repository:
    [json.loads], which returns a value or raises, and the lower-casing of
    strings that hold a non-ASCII character. *)
Record PyRuntime : Type := {
  json_loads : pystr -> JValue + Exception;
  unicode_lower : pystr -> pystr
}.

(** ** Configuration: the constants of class [Config].  Durations are in
    milliseconds. *)
Record Config : Type := {
  LORA_RESET_COMMAND : pystr;
  LORA_MAC_PAUSE_COMMAND : pystr;
  LORA_RADIO_BW_COMMAND : pystr;
  LORA_RADIO_CR_COMMAND : pystr;
  LORA_RADIO_PWR_COMMAND : pystr;
  LORA_RADIO_FREQ_COMMAND : pystr;
  LORA_RADIO_SF_COMMAND : pystr;
  LORA_RADIO_RX_COMMAND : pystr;
  COMMAND_RETRIES : Z;
  COMMAND_RETRY_DELAY : N;
  POST_URL : pystr;
  SENSOR_ID : Z;
  GATEWAY_ID : pystr
}.

Definition the_config : Config := {|
  LORA_RESET_COMMAND := str "sys reset";
  LORA_MAC_PAUSE_COMMAND := str "mac pause";
  LORA_RADIO_BW_COMMAND := str "radio set bw 125";
  LORA_RADIO_CR_COMMAND := str "radio set cr 4/5";
  LORA_RADIO_PWR_COMMAND := str "radio set pwr 20";
  LORA_RADIO_FREQ_COMMAND := str "radio set freq 910000000";
  LORA_RADIO_SF_COMMAND := str "radio set sf sf7";
  LORA_RADIO_RX_COMMAND := str "radio rx 0";
  COMMAND_RETRIES := 3;
  COMMAND_RETRY_DELAY := 500;
  POST_URL :=
    str "https://fac7-171-96-191-39.ngrok-free.app/Dashboard/api/update_data.php";
  SENSOR_ID := 123;
  GATEWAY_ID := str "GATEWAY001"
|}.

(** The dictionary [post_data] handed to [send_post_request]. *)
Record UploadPayload : Type := {
  sensor_id : Z;
  gateway_id : pystr;
  data_kwh : JValue
}.

(** ** Observable events *)

Inductive level : Type := DEBUG | INFO | WARNING | ERROR.

(** One constructor per logging call of the source, with the values that the
    call interpolates into its message. *)
Inductive logmsg : Type :=
| InvalidHexString (hex_str : pystr)
| SerialNotOpen
| SentCommand (command : pystr)
| ReceivedResponse (response : pystr)
| SerialExceptionDuringSend
| UnicodeDecodeErrorDuringSend
| CommandAcknowledged (command : pystr) (attempt : nat)
| AttemptFailed (attempt : nat) (command response : pystr)
| AllAttemptsFailed (retries : Z) (command : pystr)
| ResettingModule
| PausingMac
| SettingFrequency
| FrequencySet
| FailedToSetFrequency
| SettingSpreadingFactor
| SpreadingFactorSet
| FailedToSetSpreadingFactor
| PuttingIntoReceiveMode
| NowInReceiveMode
| FailedToSetReceiveMode
| ErrorConfiguringGateway (e : Exception)
| PostSuccessful (response_data : JValue)
| PostNotJson
| PostFailed (status_code : Z) (text : pystr)
| PostException (e : Exception)
| ReceivedPacket (readable_message : pystr)
| ParsedJsonData
| JsonField (key : pystr) (value : JValue)
| FailedToDecodeJson (readable_message : pystr)
| UnexpectedRadioRxFormat (message : pystr)
| ReceiveError (message : pystr)
| AttemptingReconfigure
| ReceivedAcknowledgment (message : pystr)
| UnexpectedResponse (message : pystr)
| Listening
| RawMessageReceived (raw_message : pystr)
| FailedToReissueReceive
| StoppingReceiver
| ErrorWhileListening (e : Exception).

Inductive event : Type :=
| Log (lvl : level) (m : logmsg)
| Call (command : pystr)
| SerialWrite (text : pystr)
| Sleep (ms : N)
| HttpPost (url : pystr) (data : UploadPayload).

(** ** The world outside the process

    The port is absent ([self.ser] is [None]), closed or open.  What the
    device and the endpoint answer is scripted: each list is consumed one
    entry per call; past its end a write succeeds, a read times out with no
    bytes, nothing is waiting, and the endpoint cannot be reached. *)

Inductive PortState : Type := NoPort | PortClosed | PortOpen.

Record Response : Type := {
  status_code : Z;
  text : pystr;
  json : JValue + Exception
}.

Inductive Polled : Type :=
| Waiting (n : N)
| PollRaises (e : Exception)
| PollInterrupted.

Record World : Type := {
  port : PortState;
  writes : list bool;
  reads : list (option pybytes);
  polls : list Polled;
  posts : list (Response + Exception)
}.

(** ** Computations: state passing with exceptions and an event log *)

Inductive Res (A : Type) : Type :=
| Ret (a : A)
| Raise (x : BaseException).
Arguments Ret {A} a.
Arguments Raise {A} x.

Record Run (A : Type) : Type := {
  value : Res A;
  world : World;
  events : list event
}.
Arguments value {A} r.
Arguments world {A} r.
Arguments events {A} r.

Definition M (A : Type) : Type := World -> Run A.

Definition ret {A} (a : A) : M A :=
  fun w => {| value := Ret a; world := w; events := [] |}.

Definition raise {A} (x : BaseException) : M A :=
  fun w => {| value := Raise x; world := w; events := [] |}.

Definition bind {A B} (m : M A) (k : A -> M B) : M B :=
  fun w =>
    let r := m w in
    match value r with
    | Ret a =>
        let r' := k a (world r) in
        {| value := value r'; world := world r';
           events := events r ++ events r' |}
    | Raise x => {| value := Raise x; world := world r; events := events r |}
    end.

(** [try: m except ...: h]: [h x] is the first clause that matches [x], if
    any does. *)
Definition try_except {A} (m : M A) (h : BaseException -> option (M A)) : M A :=
  fun w =>
    let r := m w in
    match value r with
    | Ret _ => r
    | Raise x =>
        match h x with
        | Some k =>
            let r' := k (world r) in
            {| value := value r'; world := world r';
               events := events r ++ events r' |}
        | None => r
        end
    end.

Declare Scope py_scope.
Delimit Scope py_scope with py.
Notation "x <- m ;; k" := (bind m (fun x => k))
  (at level 61, m at next level, right associativity) : py_scope.
Notation "m ;; k" := (bind m (fun _ => k))
  (at level 61, right associativity) : py_scope.
Local Open Scope py_scope.

Definition emit (e : event) : M unit :=
  fun w => {| value := Ret tt; world := w; events := [e] |}.

Definition log (lvl : level) (m : logmsg) : M unit := emit (Log lvl m).

(** [time.sleep] *)
Definition sleep (ms : N) : M unit := emit (Sleep ms).

(** [except Exception as e] *)
Definition except_Exception {A} (k : Exception -> M A)
  : BaseException -> option (M A) :=
  fun x => match x with IsException e => Some (k e) | KeyboardInterrupt => None end.

(** ** The serial port and the HTTP client *)

Definition get_port : M PortState :=
  fun w => {| value := Ret (port w); world := w; events := [] |}.

(** [self.ser.write(text.encode())]: succeeds or raises [SerialException]. *)
Definition ser_write (text : pystr) : M unit :=
  fun w =>
    {| value := if hd true (writes w) then Ret tt
                else Raise (IsException SerialException);
       world := {| port := port w; writes := tl (writes w); reads := reads w;
                   polls := polls w; posts := posts w |};
       events := [SerialWrite text] |}.

(** [self.ser.readline()]: the bytes of one line, none on a timeout, or
    [SerialException]. *)
Definition ser_readline : M pybytes :=
  fun w =>
    {| value := match hd (Some []) (reads w) with
                | Some bs => Ret bs
                | None => Raise (IsException SerialException)
                end;
       world := {| port := port w; writes := writes w; reads := tl (reads w);
                   polls := polls w; posts := posts w |};
       events := [] |}.

(** [self.ser.in_waiting].  On [None] the attribute access fails, a closed
    port raises, and an operator interrupt can arrive while polling. *)
Definition ser_in_waiting : M N :=
  fun w =>
    match port w with
    | NoPort => raise (IsException AttributeError) w
    | PortClosed => raise (IsException SerialException) w
    | PortOpen =>
        {| value := match hd (Waiting 0) (polls w) with
                    | Waiting n => Ret n
                    | PollRaises e => Raise (IsException e)
                    | PollInterrupted => Raise KeyboardInterrupt
                    end;
           world := {| port := port w; writes := writes w; reads := reads w;
                       polls := tl (polls w); posts := posts w |};
           events := [] |}
    end.

(** [requests.post(url, data=json.dumps(data), headers=headers)] *)
Definition requests_post (url : pystr) (data : UploadPayload) : M Response :=
  fun w =>
    {| value := match hd (inr RequestException) (posts w) with
                | inl r => Ret r
                | inr e => Raise (IsException e)
                end;
       world := {| port := port w; writes := writes w; reads := reads w;
                   polls := polls w; posts := tl (posts w) |};
       events := [HttpPost url data] |}.

(** A call that returns a value or raises. *)
Definition lift {A} (r : A + Exception) : M A :=
  match r with
  | inl a => ret a
  | inr e => raise (IsException e)
  end.

(** [hex_to_string]: the [ValueError] of [bytes.fromhex] is logged and turned
    into the empty string. *)
Definition hex_to_string (hex_str : pystr) : M pystr :=
  match bytes_fromhex hex_str with
  | Some bytes_object => ret (decode_utf8_ignore bytes_object)
  | None => log ERROR (InvalidHexString hex_str);; ret []
  end.

Definition ascii_lower (c : N) : N :=
  if (65 <=? c) && (c <=? 90) then c + 32 else c.

(** [d.get(key, default)] *)
Definition dict_get (items : list (pystr * JValue)) (key : pystr)
           (default : JValue) : JValue :=
  match find (fun kv => pystr_eqb (fst kv) key) items with
  | Some kv => snd kv
  | None => default
  end.

(** [data.items()]: only a [dict] has the method. *)
Definition data_items (data : JValue) : M (list (pystr * JValue)) :=
  match data with
  | JDict items => ret items
  | _ => raise (IsException AttributeError)
  end.

(** [for key, value in items: logger.info(...)] *)
Fixpoint log_fields (items : list (pystr * JValue)) : M unit :=
  match items with
  | [] => ret tt
  | (key, v) :: rest => log INFO (JsonField key v);; log_fields rest
  end.

(** How a run of [listen_for_messages] bounded to a number of passes ends. *)
Inductive LoopEnd : Type := StillListening | Returned.

Section Gateway.

Variable py : PyRuntime.
Variable config : Config.

(** [s.lower()] *)
Definition lower (s : pystr) : pystr :=
  if forallb (fun c => c <? 128) s then map ascii_lower s
  else unicode_lower py s.

(** *** LoRaManager.send_command *)
Definition send_command (command : pystr) : M pystr :=
  emit (Call command);;
  p <- get_port;;
  match p with
  | PortOpen =>
      let full_command := command ++ [13; 10] in
      try_except
        (ser_write full_command;;
         log DEBUG (SentCommand command);;
         sleep 100;;
         raw <- ser_readline;;
         match decode_utf8 raw with
         | Some s =>
             let response := strip s in
             log DEBUG (ReceivedResponse response);;
             ret response
         | None => raise (IsException UnicodeDecodeError)
         end)
        (fun x =>
           match x with
           | IsException SerialException =>
               Some (log ERROR SerialExceptionDuringSend;; ret [])
           | IsException UnicodeDecodeError =>
               Some (log ERROR UnicodeDecodeErrorDuringSend;; ret [])
           | _ => None
           end)
  | _ => log ERROR SerialNotOpen;; ret []
  end.

(** *** LoRaManager.send_command_with_retry

    [retry_from remaining attempt] is the [for] loop with [remaining] passes
    left, the next one numbered [attempt]. *)
Fixpoint retry_from (command : pystr) (remaining attempt : nat) : M bool :=
  match remaining with
  | O =>
      log ERROR (AllAttemptsFailed (COMMAND_RETRIES config) command);;
      ret false
  | S remaining' =>
      response <- send_command command;;
      if pystr_eqb (lower response) (str "ok")
      then log DEBUG (CommandAcknowledged command attempt);; ret true
      else
        log WARNING (AttemptFailed attempt command response);;
        sleep (COMMAND_RETRY_DELAY config);;
        retry_from command remaining' (S attempt)
  end.

Definition send_command_with_retry (command : pystr) : M bool :=
  retry_from command (Z.to_nat (COMMAND_RETRIES config)) 1.

(** *** LoRaManager.configure_gateway *)

(** [if not self.send_command_with_retry(command): raise Exception(msg)] *)
Definition require (command : pystr) (msg : string) : M unit :=
  ok <- send_command_with_retry command;;
  if negb ok then raise (IsException (PlainException msg)) else ret tt.

(** The body of the [try]. *)
Definition configure_sequence : M unit :=
    (log INFO ResettingModule;;
     send_command (LORA_RESET_COMMAND config);;
     sleep 2000;;
     log INFO PausingMac;;
     send_command (LORA_MAC_PAUSE_COMMAND config);;
     sleep 500;;
     require (LORA_RADIO_BW_COMMAND config) "Failed to set bandwidth.";;
     require (LORA_RADIO_CR_COMMAND config) "Failed to set coding rate.";;
     require (LORA_RADIO_PWR_COMMAND config) "Failed to set power.";;
     log INFO SettingFrequency;;
     ok <- send_command_with_retry (LORA_RADIO_FREQ_COMMAND config);;
     (if ok then log INFO FrequencySet else log ERROR FailedToSetFrequency);;
     log INFO SettingSpreadingFactor;;
     ok <- send_command_with_retry (LORA_RADIO_SF_COMMAND config);;
     (if ok then log INFO SpreadingFactorSet
      else log ERROR FailedToSetSpreadingFactor);;
     log INFO PuttingIntoReceiveMode;;
     ok <- send_command_with_retry (LORA_RADIO_RX_COMMAND config);;
     (if ok then log INFO NowInReceiveMode else log ERROR FailedToSetReceiveMode)).

Definition configure_gateway : M unit :=
  try_except
    configure_sequence
    (except_Exception (fun e => log ERROR (ErrorConfiguringGateway e))).

(** *** LoRaManager.send_post_request *)
Definition send_post_request (data : UploadPayload) : M unit :=
  try_except
    (response <- requests_post (POST_URL config) data;;
     if (status_code response =? 200)%Z
     then
       try_except
         (response_data <- lift (json response);;
          log INFO (PostSuccessful response_data))
         (fun x =>
            match x with
            | IsException JSONDecodeError => Some (log WARNING PostNotJson)
            | _ => None
            end)
     else log ERROR (PostFailed (status_code response) (text response)))
    (fun x =>
       match x with
       | IsException RequestException =>
           Some (log ERROR (PostException RequestException))
       | _ => None
       end).

(** *** LoRaManager.process_received_message *)

(** The body of the [try] of the [radio_rx] branch. *)
Definition parse_and_upload (readable_message : pystr) : M unit :=
  data <- lift (json_loads py readable_message);;
  log INFO ParsedJsonData;;
  items <- data_items data;;
  log_fields items;;
  let post_data :=
    {| sensor_id := SENSOR_ID config;
       gateway_id := GATEWAY_ID config;
       data_kwh := dict_get items (str "TotalActivePower") (JFloat 0%float) |} in
  send_post_request post_data.

Definition process_received_message (message : pystr) : M unit :=
  if startswith message (str "radio_rx") then
    match split message with
    | _ :: hex_data :: _ =>
        readable_message <- hex_to_string hex_data;;
        log DEBUG (ReceivedPacket readable_message);;
        try_except
          (parse_and_upload readable_message)
          (fun x =>
             match x with
             | IsException JSONDecodeError =>
                 Some (log ERROR (FailedToDecodeJson readable_message))
             | IsException _ => Some (ret tt)
             | KeyboardInterrupt => None
             end)
    | _ => log ERROR (UnexpectedRadioRxFormat message)
    end
  else if startswith message (str "radio_err") then
    log ERROR (ReceiveError message);;
    log INFO AttemptingReconfigure;;
    configure_gateway
  else if startswith message (str "ok") then
    log DEBUG (ReceivedAcknowledgment message)
  else
    log WARNING (UnexpectedResponse message).

(** *** LoRaManager.listen_for_messages *)

(** One pass of the body of [while True]. *)
Definition listen_pass : M unit :=
  n <- ser_in_waiting;;
  (if 0 <? n then
     raw <- ser_readline;;
     let raw_message := strip (decode_utf8_ignore raw) in
     match raw_message with
     | [] => ret tt
     | _ =>
         log DEBUG (RawMessageReceived raw_message);;
         process_received_message raw_message;;
         ok <- send_command_with_retry (LORA_RADIO_RX_COMMAND config);;
         if negb ok then log ERROR FailedToReissueReceive else ret tt
     end
   else ret tt);;
  sleep 100.

(** The loop bounded to [passes] passes: it leaves only by an exception. *)
Fixpoint listen_loop (passes : nat) : M LoopEnd :=
  match passes with
  | O => ret StillListening
  | S passes' => listen_pass;; listen_loop passes'
  end.

Definition listen_for_messages (passes : nat) : M LoopEnd :=
  log INFO Listening;;
  try_except
    (listen_loop passes)
    (fun x =>
       match x with
       | KeyboardInterrupt => Some (log INFO StoppingReceiver;; ret Returned)
       | IsException e => Some (log ERROR (ErrorWhileListening e);; ret Returned)
       end).

End Gateway.

(** ** A reference runtime

    To run the program on concrete messages the runtime is instantiated with a
    decoder for the JSON that the sensors send: objects, arrays, strings
    without escapes, integers, decimals without exponent, [true], [false] and
    [null].  On such texts it agrees with [json.loads]; a text outside this
    fragment is answered with [outside_fragment]. *)

Inductive parsed (A : Type) : Type :=
| POk (a : A) (rest : pystr)
| PErr (e : Exception).
Arguments POk {A} a rest.
Arguments PErr {A} e.

Definition outside_fragment : Exception :=
  PlainException "outside the JSON fragment of the reference decoder".

Definition json_ws (c : N) : bool :=
  (c =? 32) || (c =? 9) || (c =? 10) || (c =? 13).

Fixpoint skip_ws (s : pystr) : pystr :=
  match s with
  | c :: s' => if json_ws c then skip_ws s' else s
  | [] => []
  end.

Definition is_digit (c : N) : bool := (48 <=? c) && (c <=? 57).

Fixpoint span_digits (s : pystr) : pystr * pystr :=
  match s with
  | c :: s' =>
      if is_digit c
      then let (ds, r) := span_digits s' in (c :: ds, r)
      else ([], s)
  | [] => ([], [])
  end.

Definition digits_value (ds : pystr) : N :=
  fold_left (fun acc c => acc * 10 + (c - 48)) ds 0.

Fixpoint float_of_pos (p : positive) : float :=
  match p with
  | xH => 1%float
  | xO q => (2 * float_of_pos q)%float
  | xI q => (2 * float_of_pos q + 1)%float
  end.

Definition float_of_N (n : N) : float :=
  match n with
  | N0 => 0%float
  | Npos p => float_of_pos p
  end.

(** A number: the integer part is [0] or starts with a non-zero digit; with a
    fraction the value is the quotient of two exactly represented floats. *)
Definition parse_number (s : pystr) : parsed JValue :=
  let (neg, s1) := match s with
                   | 45 :: r => (true, r)
                   | _ => (false, s)
                   end in
  let (ip0, s2) := span_digits s1 in
  match ip0 with
  | [] => PErr JSONDecodeError
  | d :: more =>
      let (ip, s3) := if d =? 48 then ([d], more ++ s2) else (ip0, s2) in
      let (fp, s4) := match s3 with
                      | 46 :: r =>
                          match span_digits r with
                          | ([], _) => ([], s3)
                          | (ds, r') => (ds, r')
                          end
                      | _ => ([], s3)
                      end in
      match s4 with
      | 69 :: _ | 101 :: _ => PErr outside_fragment
      | _ =>
          match fp with
          | [] =>
              let z := Z.of_N (digits_value ip) in
              POk (JInt (if neg then - z else z)%Z) s4
          | _ =>
              let m := digits_value (ip ++ fp) in
              if (m <? 9007199254740992) && (Nat.leb (List.length fp) 22)
              then
                let f := (float_of_N m
                          / float_of_N (10 ^ N.of_nat (List.length fp)))%float in
                POk (JFloat (if neg then (- f)%float else f)) s4
              else PErr outside_fragment
          end
      end
  end.

(** The characters of a string up to its closing quote. *)
Fixpoint parse_chars (s : pystr) : parsed pystr :=
  match s with
  | [] => PErr JSONDecodeError
  | c :: s' =>
      if c =? 34 then POk [] s'
      else if c =? 92 then PErr outside_fragment
      else if c <? 32 then PErr JSONDecodeError
      else match parse_chars s' with
           | POk cs rest => POk (c :: cs) rest
           | PErr e => PErr e
           end
  end.

(** [d[key] = v] on a dictionary kept as its list of items. *)
Fixpoint dict_set (items : list (pystr * JValue)) (key : pystr) (v : JValue)
  : list (pystr * JValue) :=
  match items with
  | [] => [(key, v)]
  | (k, v') :: rest =>
      if pystr_eqb k key then (k, v) :: rest
      else (k, v') :: dict_set rest key v
  end.

(** The elements of an array, from the start of an element. *)
Fixpoint parse_elements (value_at : pystr -> parsed JValue) (fuel : nat)
         (s : pystr) (acc : list JValue) : parsed JValue :=
  match fuel with
  | O => PErr outside_fragment
  | S fuel' =>
      match value_at s with
      | PErr e => PErr e
      | POk v rest =>
          match skip_ws rest with
          | 44 :: r => parse_elements value_at fuel' (skip_ws r) (acc ++ [v])
          | 93 :: r => POk (JList (acc ++ [v])) r
          | _ => PErr JSONDecodeError
          end
      end
  end.

(** The members of an object, from the opening quote of a key. *)
Fixpoint parse_members (value_at : pystr -> parsed JValue) (fuel : nat)
         (s : pystr) (acc : list (pystr * JValue)) : parsed JValue :=
  match fuel with
  | O => PErr outside_fragment
  | S fuel' =>
      match s with
      | 34 :: s1 =>
          match parse_chars s1 with
          | PErr e => PErr e
          | POk key rest =>
              match skip_ws rest with
              | 58 :: r =>
                  match value_at (skip_ws r) with
                  | PErr e => PErr e
                  | POk v rest' =>
                      let acc' := dict_set acc key v in
                      match skip_ws rest' with
                      | 44 :: r' =>
                          parse_members value_at fuel' (skip_ws r') acc'
                      | 125 :: r' => POk (JDict acc') r'
                      | _ => PErr JSONDecodeError
                      end
                  end
              | _ => PErr JSONDecodeError
              end
          end
      | _ => PErr JSONDecodeError
      end
  end.

Fixpoint parse_value (fuel : nat) (s : pystr) : parsed JValue :=
  match fuel with
  | O => PErr outside_fragment
  | S fuel' =>
      match s with
      | 34 :: s1 =>
          match parse_chars s1 with
          | POk cs rest => POk (JStr cs) rest
          | PErr e => PErr e
          end
      | 123 :: s1 =>
          match skip_ws s1 with
          | 125 :: r => POk (JDict []) r
          | s2 => parse_members (parse_value fuel') fuel' s2 []
          end
      | 91 :: s1 =>
          match skip_ws s1 with
          | 93 :: r => POk (JList []) r
          | s2 => parse_elements (parse_value fuel') fuel' s2 []
          end
      | _ =>
          if startswith s (str "true") then POk (JBool true) (skipn 4 s)
          else if startswith s (str "false") then POk (JBool false) (skipn 5 s)
          else if startswith s (str "null") then POk JNull (skipn 4 s)
          else if startswith s (str "NaN") || startswith s (str "Infinity")
                  || startswith s (str "-Infinity")
          then PErr outside_fragment
          else parse_number s
      end
  end.

Definition reference_json_loads (s : pystr) : JValue + Exception :=
  match parse_value (S (List.length s)) (skip_ws s) with
  | PErr e => inr e
  | POk v rest =>
      match skip_ws rest with
      | [] => inl v
      | _ => inr JSONDecodeError
      end
  end.

(** Lower-casing restricted to the ASCII letters; it is [str.lower] on every
    string whose other characters have no lower-case form of their own. *)
Definition reference_runtime : PyRuntime := {|
  json_loads := reference_json_loads;
  unicode_lower := map ascii_lower
|}.

(** ** Auxiliary definitions for the proofs *)

(** The numbers below [n], for checks by enumeration. *)
Definition below (n : nat) : list N := map N.of_nat (seq 0 n).

(** What [format_02X] must give on an octet for [bytes.fromhex] to read the
    octet back: two digits, the high one first. *)
Definition octet_ok (c : N) : bool :=
  match format_02X c with
  | [h; l] =>
      (h =? hex_digit (c / 16)) && (l =? hex_digit (c mod 16))
      && negb (Py_ISSPACE h)
      && match hex_value h, hex_value l with
         | Some top, Some bot => top * 16 + bot =? c
         | _, _ => false
         end
  | _ => false
  end.


(** Hexadecimal digit characters, and how many of them a string holds. *)
Definition is_hex (c : N) : bool :=
  match hex_value c with
  | Some _ => true
  | None => false
  end.

Definition hex_count (s : pystr) : nat := List.length (filter is_hex s).

(** A port that is open on a silent device and an unreachable endpoint. *)
Definition quiet_world : World :=
  {| port := PortOpen; writes := []; reads := []; polls := []; posts := [] |}.

(** The one-character string of the euro sign, U+20AC. *)
Definition euro_sign : pystr := [8364].

(** The commands handed to [send_command], in order. *)
Fixpoint calls_of (evs : list event) : list pystr :=
  match evs with
  | [] => []
  | Call c :: rest => c :: calls_of rest
  | _ :: rest => calls_of rest
  end.

Section Attempts.

Variable py : PyRuntime.
Variable config : Config.

(** The test of [send_command_with_retry] on a response. *)
Definition acknowledged (response : pystr) : bool :=
  pystr_eqb (lower py response) (str "ok").

(** The world in which attempt [i] of a command is made (counting from 0)
    when every earlier attempt was made and failed, and the response that
    the attempt obtains. *)
Definition after_sends (command : pystr) (w : World) (i : nat) : World :=
  Nat.iter i (fun w' => world (send_command command w')) w.

Definition response_at (command : pystr) (w : World) (i : nat) : pystr :=
  match value (send_command command (after_sends command w i)) with
  | Ret r => r
  | Raise _ => []
  end.

(** What a failed attempt leaves behind: the events of the send, the warning
    and the wait.  [first] is the number of the first attempt. *)
Definition failed_attempt (command : pystr) (w : World) (first i : nat)
  : list event :=
  events (send_command command (after_sends command w i))
  ++ [Log WARNING (AttemptFailed (first + i) command (response_at command w i));
      Sleep (COMMAND_RETRY_DELAY config)].

End Attempts.

(** An open port on a device that answers [busy] to the first command and
    [OK] to the second. *)
Definition busy_then_ok : World :=
  {| port := PortOpen; writes := [];
     reads := [Some (str "busy" ++ [13; 10]); Some (str "OK" ++ [13; 10])];
     polls := []; posts := [] |}.

Section Stages.

Variable py : PyRuntime.
Variable config : Config.

(** The worlds in which [configure_gateway], started in [w], issues each of
    its commands, provided the sequence gets that far. *)
Definition at_pause (w : World) : World :=
  world (send_command (LORA_RESET_COMMAND config) w).
Definition at_bw (w : World) : World :=
  world (send_command (LORA_MAC_PAUSE_COMMAND config) (at_pause w)).
Definition at_cr (w : World) : World :=
  world (send_command_with_retry py config (LORA_RADIO_BW_COMMAND config) (at_bw w)).
Definition at_pwr (w : World) : World :=
  world (send_command_with_retry py config (LORA_RADIO_CR_COMMAND config) (at_cr w)).
Definition at_freq (w : World) : World :=
  world (send_command_with_retry py config (LORA_RADIO_PWR_COMMAND config) (at_pwr w)).
Definition at_sf (w : World) : World :=
  world (send_command_with_retry py config (LORA_RADIO_FREQ_COMMAND config) (at_freq w)).
Definition at_rx (w : World) : World :=
  world (send_command_with_retry py config (LORA_RADIO_SF_COMMAND config) (at_sf w)).

(** A command issued in [w] exhausts its retries, or is acknowledged. *)
Definition exhausts (command : pystr) (w : World) : Prop :=
  value (send_command_with_retry py config command w) = Ret false.
Definition succeeds (command : pystr) (w : World) : Prop :=
  value (send_command_with_retry py config command w) = Ret true.

(** One of the bandwidth, coding-rate and power commands exhausts its
    retries, those before it having been acknowledged. *)
Definition prerequisite_exhausted (w : World) : Prop :=
  exhausts (LORA_RADIO_BW_COMMAND config) (at_bw w)
  \/ (succeeds (LORA_RADIO_BW_COMMAND config) (at_bw w)
      /\ exhausts (LORA_RADIO_CR_COMMAND config) (at_cr w))
  \/ (succeeds (LORA_RADIO_BW_COMMAND config) (at_bw w)
      /\ succeeds (LORA_RADIO_CR_COMMAND config) (at_cr w)
      /\ exhausts (LORA_RADIO_PWR_COMMAND config) (at_pwr w)).

(** The bandwidth, coding-rate and power commands are acknowledged and the
    frequency command exhausts its retries. *)
Definition frequency_exhausted (w : World) : Prop :=
  succeeds (LORA_RADIO_BW_COMMAND config) (at_bw w)
  /\ succeeds (LORA_RADIO_CR_COMMAND config) (at_cr w)
  /\ succeeds (LORA_RADIO_PWR_COMMAND config) (at_pwr w)
  /\ exhausts (LORA_RADIO_FREQ_COMMAND config) (at_freq w).

(** What the reset and the MAC pause leave in the log. *)
Definition prelude_events (w : World) : list event :=
  Log INFO ResettingModule
  :: events (send_command (LORA_RESET_COMMAND config) w)
  ++ Sleep 2000 :: Log INFO PausingMac
  :: events (send_command (LORA_MAC_PAUSE_COMMAND config) (at_pause w))
  ++ [Sleep 500].

(** The commands that the sequence issues up to the power command. *)
Definition prerequisite_commands : list pystr :=
  [LORA_RESET_COMMAND config; LORA_MAC_PAUSE_COMMAND config;
   LORA_RADIO_BW_COMMAND config; LORA_RADIO_CR_COMMAND config;
   LORA_RADIO_PWR_COMMAND config].

End Stages.

(** A device that acknowledges every command of one configuration run. *)
Definition ok_world : World :=
  {| port := PortOpen; writes := [];
     reads := repeat (Some (str "ok" ++ [13; 10])) 8;
     polls := []; posts := [] |}.

(** A device that acknowledges everything but the frequency command, which it
    rejects three times. *)
Definition frequency_rejected_world : World :=
  {| port := PortOpen; writes := [];
     reads := repeat (Some (str "ok" ++ [13; 10])) 5
              ++ repeat (Some (str "invalid_param" ++ [13; 10])) 3
              ++ repeat (Some (str "ok" ++ [13; 10])) 2;
     polls := []; posts := [] |}.

(** ** Observations for the further properties *)

(** A computation that an operator interrupt never leaves: the exceptions
    it raises are all below [Exception]. *)
Definition never_interrupted {A} (m : M A) : Prop :=
  forall w, value (m w) <> Raise KeyboardInterrupt.

(** The uploads issued, the texts written to the port and the time slept. *)
Fixpoint posts_of (evs : list event) : list (pystr * UploadPayload) :=
  match evs with
  | [] => []
  | HttpPost url data :: rest => (url, data) :: posts_of rest
  | _ :: rest => posts_of rest
  end.

Fixpoint writes_of (evs : list event) : list pystr :=
  match evs with
  | [] => []
  | SerialWrite text :: rest => text :: writes_of rest
  | _ :: rest => writes_of rest
  end.

Fixpoint slept (evs : list event) : N :=
  match evs with
  | [] => 0
  | Sleep ms :: rest => ms + slept rest
  | _ :: rest => slept rest
  end.

(** An event of the serial channel: a call of [send_command] or a write. *)
Definition serial_event (e : event) : bool :=
  match e with
  | Call _ | SerialWrite _ => true
  | _ => false
  end.

Definition is_post (e : event) : bool :=
  match e with
  | HttpPost _ _ => true
  | _ => false
  end.

(** The error records among some events. *)
Definition errors_of (evs : list event) : list logmsg :=
  flat_map (fun e => match e with Log ERROR m => [m] | _ => [] end) evs.

Section StagesAcknowledged.

Variable py : PyRuntime.
Variable config : Config.

(** Every command of the configuration sequence that goes through
    [send_command_with_retry] is acknowledged. *)
Definition all_acknowledged (w : World) : Prop :=
  succeeds py config (LORA_RADIO_BW_COMMAND config) (at_bw config w)
  /\ succeeds py config (LORA_RADIO_CR_COMMAND config) (at_cr py config w)
  /\ succeeds py config (LORA_RADIO_PWR_COMMAND config) (at_pwr py config w)
  /\ succeeds py config (LORA_RADIO_FREQ_COMMAND config) (at_freq py config w)
  /\ succeeds py config (LORA_RADIO_SF_COMMAND config) (at_sf py config w)
  /\ succeeds py config (LORA_RADIO_RX_COMMAND config) (at_rx py config w).

End StagesAcknowledged.

(** What [hex_to_string] returns and what it logs. *)
Definition decoded_text (hex_str : pystr) : pystr :=
  match bytes_fromhex hex_str with
  | Some bytes_object => decode_utf8_ignore bytes_object
  | None => []
  end.

Definition decoding_events (hex_str : pystr) : list event :=
  match bytes_fromhex hex_str with
  | Some _ => []
  | None => [Log ERROR (InvalidHexString hex_str)]
  end.

(** The world after one scripted answer of the endpoint has been used. *)
Definition after_post (w : World) : World :=
  {| port := port w; writes := writes w; reads := reads w; polls := polls w;
     posts := tl (posts w) |}.

(** The world after one poll of the port, and after one poll and one read. *)
Definition after_poll (w : World) : World :=
  {| port := port w; writes := writes w; reads := reads w;
     polls := tl (polls w); posts := posts w |}.

Definition after_poll_and_read (w : World) : World :=
  {| port := port w; writes := writes w; reads := tl (reads w);
     polls := tl (polls w); posts := posts w |}.

(** A computation that issues no upload. *)
Definition no_upload {A} (m : M A) : Prop :=
  forall w, posts_of (events (m w)) = [].

(** ** The session: opening and closing the port, the version request, [main]

    The constants of class [Config] that only the session uses. *)
Record SessionConfig : Type := {
  SERIAL_PORT : pystr;
  BAUD_RATE : Z;
  TIMEOUT : Z;
  LORA_SYS_GET_VER_COMMAND : pystr
}.

Definition the_session_config : SessionConfig := {|
  SERIAL_PORT := str "/dev/serial0";
  BAUD_RATE := 57600;
  TIMEOUT := 2;
  LORA_SYS_GET_VER_COMMAND := str "sys get ver"
|}.

(** The logging calls of [open_connection], [close_connection],
    [get_system_version] and [main]. *)
Inductive session_msg : Type :=
| OpenedSerialPort (serial_port : pystr) (baud_rate : Z)
| FailedToOpenSerialPort (serial_port : pystr) (e : Exception)
| SerialConnectionClosed
| RequestingSystemVersion
| ModuleVersion (response : pystr)
| NoVersionResponse
| MainSerialException (e : Exception)
| MainUnexpectedException (e : Exception).

(** What a session leaves behind: the events of the radio and upload code,
    and the records of the session itself. *)
Inductive session_event : Type :=
| Core (e : event)
| SessionLog (lvl : level) (m : session_msg).

Record SessionRun (A : Type) : Type := {
  outcome : Res A;
  final : World;
  trace : list session_event
}.
Arguments outcome {A} s.
Arguments final {A} s.
Arguments trace {A} s.

Definition Session (A : Type) : Type := World -> SessionRun A.

Definition session_ret {A} (a : A) : Session A :=
  fun w => {| outcome := Ret a; final := w; trace := [] |}.

Definition session_raise {A} (x : BaseException) : Session A :=
  fun w => {| outcome := Raise x; final := w; trace := [] |}.

Definition session_bind {A B} (m : Session A) (k : A -> Session B)
  : Session B :=
  fun w =>
    let r := m w in
    match outcome r with
    | Ret a =>
        let r' := k a (final r) in
        {| outcome := outcome r'; final := final r';
           trace := trace r ++ trace r' |}
    | Raise x => {| outcome := Raise x; final := final r; trace := trace r |}
    end.

Definition session_try {A} (m : Session A)
           (h : BaseException -> option (Session A)) : Session A :=
  fun w =>
    let r := m w in
    match outcome r with
    | Ret _ => r
    | Raise x =>
        match h x with
        | Some k =>
            let r' := k (final r) in
            {| outcome := outcome r'; final := final r';
               trace := trace r ++ trace r' |}
        | None => r
        end
    end.

(** A computation of the radio and upload code, run inside a session. *)
Definition core {A} (m : M A) : Session A :=
  fun w =>
    let r := m w in
    {| outcome := value r; final := world r; trace := map Core (events r) |}.

Definition session_log (lvl : level) (m : session_msg) : Session unit :=
  fun w => {| outcome := Ret tt; final := w; trace := [SessionLog lvl m] |}.

(** Assignment to [self.ser], and [self.ser.close()]. *)
Definition set_port (p : PortState) : Session unit :=
  fun w =>
    {| outcome := Ret tt;
       final := {| port := p; writes := writes w; reads := reads w;
                   polls := polls w; posts := posts w |};
       trace := [] |}.

Declare Scope session_scope.
Delimit Scope session_scope with session.
Notation "x <- m ;; k" := (session_bind m (fun x => k))
  (at level 61, m at next level, right associativity) : session_scope.
Notation "m ;; k" := (session_bind m (fun _ => k))
  (at level 61, right associativity) : session_scope.

Section SessionCode.

Variable py : PyRuntime.
Variable config : Config.
Variable session_config : SessionConfig.

Local Open Scope session_scope.

(** *** LoRaManager.open_connection

    [openable] says whether [serial.Serial(...)] succeeds or raises
    [SerialException].  The two flushes drop what was buffered before the
    port was opened; the scripts of the world describe what arrives
    afterwards, so they leave it unchanged. *)
Definition open_connection (openable : bool) : Session unit :=
  session_try
    ((if openable then set_port PortOpen
      else session_raise (IsException SerialException));;
     session_log INFO (OpenedSerialPort (SERIAL_PORT session_config)
                                        (BAUD_RATE session_config)))
    (fun x =>
       match x with
       | IsException SerialException =>
           Some (session_log ERROR
                   (FailedToOpenSerialPort (SERIAL_PORT session_config)
                                           SerialException);;
                 session_raise x)
       | _ => None
       end).

(** *** LoRaManager.close_connection *)
Definition close_connection : Session unit :=
  fun w =>
    match port w with
    | PortOpen =>
        (set_port PortClosed;; session_log INFO SerialConnectionClosed) w
    | _ => session_ret tt w
    end.

(** *** LoRaManager.get_system_version *)
Definition get_system_version : Session unit :=
  session_log INFO RequestingSystemVersion;;
  response <- core (send_command (LORA_SYS_GET_VER_COMMAND session_config));;
  match response with
  | [] => session_log WARNING NoVersionResponse
  | _ => session_log INFO (ModuleVersion response)
  end.

(** *** main

    The manager starts with no port.  The loop is bounded to [passes] passes;
    while it is still running [main] has not reached its [finally]. *)
Definition main_body (openable : bool) (passes : nat) : Session LoopEnd :=
  session_try
    (open_connection openable;;
     core (configure_gateway py config);;
     get_system_version;;
     core (listen_for_messages py config passes))
    (fun x =>
       match x with
       | IsException SerialException =>
           Some (session_log ERROR (MainSerialException SerialException);;
                 session_ret Returned)
       | IsException e =>
           Some (session_log ERROR (MainUnexpectedException e);;
                 session_ret Returned)
       | KeyboardInterrupt => None
       end).

Definition main (openable : bool) (passes : nat) : Session LoopEnd :=
  set_port NoPort;;
  fun w =>
    let r := main_body openable passes w in
    match outcome r with
    | Ret StillListening => r
    | _ =>
        let r' := close_connection (final r) in
        {| outcome := match outcome r' with
                      | Ret _ => outcome r
                      | Raise x => Raise x
                      end;
           final := final r';
           trace := trace r ++ trace r' |}
    end.

End SessionCode.
(** * Properties *)

(** ** Codec *)

Lemma below_In (c : N) (n : nat) : c < N.of_nat n -> In c (below n).
Proof.
  intros H. unfold below. rewrite <- (N2Nat.id c). apply in_map.
  apply in_seq. lia.
Qed.

Lemma octets_ok : forallb octet_ok (below 256) = true.
Proof. vm_compute. reflexivity. Qed.

Lemma format_02X_octet (c : N) :
  c < 256 ->
  exists h l top bot,
    format_02X c = [h; l] /\ h = hex_digit (c / 16) /\ l = hex_digit (c mod 16)
    /\ Py_ISSPACE h = false /\ hex_value h = Some top /\ hex_value l = Some bot
    /\ top * 16 + bot = c.
Proof.
  intros H. pose proof octets_ok as A. rewrite forallb_forall in A.
  specialize (A c (below_In c 256 H)). unfold octet_ok in A.
  destruct (format_02X c) as [|h [|l [|x t]]]; try discriminate.
  apply andb_prop in A. destruct A as [A D].
  apply andb_prop in A. destruct A as [A C].
  apply andb_prop in A. destruct A as [A B].
  destruct (hex_value h) as [top|] eqn:Eh; try discriminate.
  destruct (hex_value l) as [bot|] eqn:El; try discriminate.
  exists h, l, top, bot.
  apply N.eqb_eq in A, B, D. apply negb_true_iff in C.
  repeat split; try assumption; reflexivity.
Qed.

Lemma bytes_fromhex_format (c : N) (rest : pystr) :
  c < 256 ->
  bytes_fromhex (format_02X c ++ rest) = option_map (cons c) (bytes_fromhex rest).
Proof.
  intros H. destruct (format_02X_octet c H)
    as (h & l & top & bot & E & _ & _ & Hs & Hh & Hl & Hc).
  rewrite E. simpl. rewrite Hs, Hh, Hl, Hc. reflexivity.
Qed.

Lemma bytes_fromhex_string_to_hex (s : pystr) :
  Forall (fun c => c < 256) s -> bytes_fromhex (string_to_hex s) = Some s.
Proof.
  induction 1 as [|c s Hc _ IH]; simpl.
  - reflexivity.
  - rewrite bytes_fromhex_format by assumption. rewrite IH. reflexivity.
Qed.

Lemma decode_utf8_ignore_ascii (s : pystr) :
  Forall (fun c => c < 128) s -> decode_utf8_ignore s = s.
Proof.
  unfold decode_utf8_ignore.
  induction 1 as [|c s Hc _ IH]; simpl.
  - reflexivity.
  - apply N.ltb_lt in Hc. rewrite Hc. simpl. rewrite IH. reflexivity.
Qed.

(** C6.  Decoding the hexadecimal form of a string of printable ASCII
    characters (code points 32 to 126) gives the string back: [hex_to_string]
    returns it, logs nothing and leaves the world as it was. *)
Theorem hex_roundtrip_printable (s : pystr) (w : World) :
  Forall (fun c => 32 <= c <= 126) s ->
  hex_to_string (string_to_hex s) w = ret s w.
Proof.
  intros H. unfold hex_to_string.
  rewrite bytes_fromhex_string_to_hex.
  - rewrite decode_utf8_ignore_ascii; [reflexivity|].
    eapply Forall_impl; [|exact H]. simpl. intros; lia.
  - eapply Forall_impl; [|exact H]. simpl. intros; lia.
Qed.

Lemma hex_roundtrip_printable_witness :
  Forall (fun c => 32 <= c <= 126) (str "Hello {}~ 42.5")
  /\ hex_to_string (string_to_hex (str "Hello {}~ 42.5"))
       {| port := PortOpen; writes := []; reads := []; polls := []; posts := [] |}
     = ret (str "Hello {}~ 42.5")
       {| port := PortOpen; writes := []; reads := []; polls := []; posts := [] |}.
Proof.
  assert (H : Forall (fun c => 32 <= c <= 126) (str "Hello {}~ 42.5")).
  { apply Forall_forall. intros c Hc.
    assert (B : forallb (fun c => (32 <=? c) && (c <=? 126))
                        (str "Hello {}~ 42.5") = true) by (vm_compute; reflexivity).
    rewrite forallb_forall in B. specialize (B c Hc).
    apply andb_prop in B. destruct B as [B1 B2].
    apply N.leb_le in B1, B2. lia. }
  split; [exact H|].
  exact (hex_roundtrip_printable _ _ H).
Defined.

Ltac cmp_cases :=
  repeat match goal with
         | |- context [?a <=? ?b] => destruct (N.leb_spec a b)
         | |- context [?a <? ?b] => destruct (N.ltb_spec a b)
         | |- context [?a =? ?b] => destruct (N.eqb_spec a b)
         end;
  simpl in *; try discriminate; try lia; try reflexivity.

Lemma hex_digit_upper (d : N) :
  d < 16 -> 48 <= hex_digit d <= 57 \/ 65 <= hex_digit d <= 70.
Proof. intros H. unfold hex_digit. destruct (N.ltb_spec d 10); lia. Qed.

(** C8 (amended).  On a string whose characters have code points below 256,
    [string_to_hex] writes for each character its two upper-case hexadecimal
    digits, high digit first, and the output is exactly twice as long as the
    input. *)
Theorem string_to_hex_two_digits (s : pystr) :
  Forall (fun c => c < 256) s ->
  string_to_hex s
  = flat_map (fun c => [hex_digit (c / 16); hex_digit (c mod 16)]) s
  /\ Forall (fun h => 48 <= h <= 57 \/ 65 <= h <= 70) (string_to_hex s)
  /\ List.length (string_to_hex s) = (2 * List.length s)%nat.
Proof.
  induction 1 as [|c s Hc _ (IH1 & IH2 & IH3)]; simpl.
  - repeat split. constructor.
  - destruct (format_02X_octet c Hc) as (h & l & top & bot & E & Eh & El & _).
    rewrite E. simpl. repeat split.
    + rewrite IH1, Eh, El. reflexivity.
    + subst h l. constructor; [|constructor; [|exact IH2]].
      * apply hex_digit_upper. apply N.Div0.div_lt_upper_bound. lia.
      * apply hex_digit_upper. apply N.mod_lt. lia.
    + rewrite IH3. lia.
Qed.

Lemma string_to_hex_two_digits_witness :
  Forall (fun c => c < 256) (str "ok")
  /\ List.length (string_to_hex (str "ok")) = (2 * List.length (str "ok"))%nat.
Proof.
  assert (H : Forall (fun c => c < 256) (str "ok")).
  { repeat constructor. }
  split; [exact H|].
  exact (proj2 (proj2 (string_to_hex_two_digits (str "ok") H))).
Defined.

(** C8, as stated, fails: the euro sign, code point 8364, is written with
    four digits. *)
Lemma string_to_hex_wide_char :
  string_to_hex euro_sign = str "20AC"
  /\ List.length (string_to_hex euro_sign) <> (2 * List.length euro_sign)%nat.
Proof. split; [reflexivity | vm_compute; discriminate]. Qed.

Lemma space_not_hex (c : N) : Py_ISSPACE c = true -> is_hex c = false.
Proof.
  unfold Py_ISSPACE, is_hex, hex_value. cmp_cases.
Qed.

(** When [bytes.fromhex] succeeds, the string holds only hexadecimal digits
    and ASCII white space, and two digits for every byte. *)
Lemma bytes_fromhex_Some_inv (n : nat) :
  forall s bs,
    (List.length s <= n)%nat ->
    bytes_fromhex s = Some bs ->
    Forall (fun c => Py_ISSPACE c = true \/ is_hex c = true) s
    /\ hex_count s = (2 * List.length bs)%nat.
Proof.
  induction n as [|n IH]; intros s bs Hn Hs.
  - destruct s; [|simpl in Hn; lia]. inversion Hs. split; [constructor|reflexivity].
  - destruct s as [|c s']; [inversion Hs; split; [constructor|reflexivity]|].
    simpl in Hs, Hn.
    destruct (Py_ISSPACE c) eqn:Ec.
    + destruct (IH s' bs ltac:(lia) Hs) as [F C].
      split; [constructor; auto|].
      unfold hex_count in *. simpl. rewrite (space_not_hex c Ec). exact C.
    + destruct (hex_value c) as [top|] eqn:Etop; [|discriminate].
      destruct s' as [|d s'']; [discriminate|].
      destruct (hex_value d) as [bot|] eqn:Ebot; [|discriminate].
      destruct (bytes_fromhex s'') as [bs'|] eqn:Er; [|discriminate].
      inversion Hs; subst bs. simpl in Hn.
      destruct (IH s'' bs' ltac:(lia) Er) as [F C].
      assert (Hc : is_hex c = true) by (unfold is_hex; rewrite Etop; reflexivity).
      assert (Hd : is_hex d = true) by (unfold is_hex; rewrite Ebot; reflexivity).
      split; [constructor; [auto|constructor; auto]|].
      unfold hex_count in *. simpl. rewrite Hc, Hd. simpl. rewrite C. lia.
Qed.

(** C7 (amended).  A string that holds a character that is neither a
    hexadecimal digit nor ASCII white space, or an odd number of hexadecimal
    digits, makes [hex_to_string] log one error record naming the string and
    return the empty string, never a part of the decoding; a string that
    [bytes.fromhex] accepts is decoded without any record. *)
Theorem hex_to_string_malformed (h : pystr) (w : World) :
  (Exists (fun c => Py_ISSPACE c = false /\ is_hex c = false) h
   \/ Nat.Odd (hex_count h) ->
   hex_to_string h w
   = {| value := Ret []; world := w;
        events := [Log ERROR (InvalidHexString h)] |})
  /\ (forall bs, bytes_fromhex h = Some bs ->
      hex_to_string h w = ret (decode_utf8_ignore bs) w).
Proof.
  split.
  - intros H. unfold hex_to_string.
    destruct (bytes_fromhex h) as [bs|] eqn:E; [exfalso|reflexivity].
    destruct (bytes_fromhex_Some_inv _ h bs (le_n _) E) as [F C].
    destruct H as [H|H].
    + apply Exists_exists in H. destruct H as (c & Hin & Hs & Hx).
      rewrite Forall_forall in F. destruct (F c Hin); congruence.
    + rewrite C in H. destruct H as [k Hk]. lia.
  - intros bs E. unfold hex_to_string. rewrite E. reflexivity.
Qed.

Lemma hex_to_string_malformed_witness :
  Nat.Odd (hex_count (str "48656C6C6"))
  /\ hex_to_string (str "48656C6C6") quiet_world
     = {| value := Ret []; world := quiet_world;
          events := [Log ERROR (InvalidHexString (str "48656C6C6"))] |}.
Proof.
  assert (H : Nat.Odd (hex_count (str "48656C6C6"))).
  { exists 4%nat. reflexivity. }
  split; [exact H|].
  exact (proj1 (hex_to_string_malformed (str "48656C6C6") quiet_world)
               (or_intror H)).
Defined.

(** C7, as stated, fails twice.  The string ["41 "] has odd length and a
    character that is no hexadecimal digit, and decodes to ["A"]; and the
    value returned for the malformed ["4"] is the value returned for the
    empty string, which decodes successfully. *)
Lemma hex_failure_not_distinguishable :
  Nat.Odd (List.length (str "41 "))
  /\ hex_value 32 = None
  /\ hex_to_string (str "41 ") quiet_world = ret (str "A") quiet_world
  /\ bytes_fromhex (str "4") = None
  /\ bytes_fromhex [] = Some []
  /\ value (hex_to_string (str "4") quiet_world)
     = value (hex_to_string [] quiet_world).
Proof.
  repeat split; try reflexivity. exists 1%nat. reflexivity.
Qed.

(** ** Computations *)

Lemma bind_Ret {A B} (m : M A) (k : A -> M B) (w : World) (a : A) :
  value (m w) = Ret a ->
  bind m k w
  = {| value := value (k a (world (m w)));
       world := world (k a (world (m w)));
       events := events (m w) ++ events (k a (world (m w))) |}.
Proof. intros H. unfold bind. rewrite H. reflexivity. Qed.

Lemma bind_Raise {A B} (m : M A) (k : A -> M B) (w : World) (x : BaseException) :
  value (m w) = Raise x ->
  bind m k w = {| value := Raise x; world := world (m w); events := events (m w) |}.
Proof. intros H. unfold bind. rewrite H. reflexivity. Qed.

Lemma calls_of_app (a b : list event) :
  calls_of (a ++ b) = calls_of a ++ calls_of b.
Proof.
  induction a as [|e a IH]; simpl; [reflexivity|].
  destruct e; simpl; rewrite IH; reflexivity.
Qed.

(** Absence from a list of strings, by computation. *)
Lemma not_In_by_eqb (c : pystr) (l : list pystr) :
  existsb (pystr_eqb c) l = false -> ~ In c l.
Proof.
  induction l as [|x l IH]; simpl; intros H; [tauto|].
  apply orb_false_iff in H. destruct H as [H1 H2].
  intros [E | Hin]; [|exact (IH H2 Hin)].
  subst x. clear -H1. induction c as [|a c IHc]; simpl in H1; [discriminate|].
  rewrite N.eqb_refl in H1. simpl in H1. exact (IHc H1).
Qed.

Section ChannelProperties.

Variable py : PyRuntime.
Variable config : Config.

(** A send never raises, and it is one call of [send_command]. *)
Lemma send_command_total (command : pystr) (w : World) :
  (exists r, value (send_command command w) = Ret r)
  /\ calls_of (events (send_command command w)) = [command].
Proof.
  unfold send_command, bind, try_except, get_port, emit, ser_write,
    ser_readline, log, sleep, ret, raise. cbn.
  destruct (port w); simpl; eauto.
  destruct (hd true (writes w)); simpl; eauto.
  destruct (hd (Some []) (reads w)) as [bs|]; simpl; eauto.
  destruct (decode_utf8 bs); simpl; eauto.
Qed.

#[local] Opaque send_command.

Lemma response_at_0 (command : pystr) (w : World) (r : pystr) :
  value (send_command command w) = Ret r -> response_at command w 0 = r.
Proof.
  intros H. unfold response_at.
  change (after_sends command w 0) with w. rewrite H. reflexivity.
Qed.

Lemma after_sends_S (command : pystr) (w : World) (i : nat) :
  after_sends command (world (send_command command w)) i
  = after_sends command w (S i).
Proof. unfold after_sends. rewrite Nat.iter_succ_r. reflexivity. Qed.

Lemma response_at_S (command : pystr) (w : World) (i : nat) :
  response_at command (world (send_command command w)) i
  = response_at command w (S i).
Proof. unfold response_at. rewrite after_sends_S. reflexivity. Qed.

(** One pass of the retry loop whose response is acknowledged. *)
Lemma retry_from_acknowledged (command : pystr) (n a : nat) (w : World) :
  acknowledged py (response_at command w 0) = true ->
  retry_from py config command (S n) a w
  = {| value := Ret true;
       world := world (send_command command w);
       events := events (send_command command w)
                 ++ [Log DEBUG (CommandAcknowledged command a)] |}.
Proof.
  intros H. destruct (send_command_total command w) as [[r Hr] _].
  rewrite (response_at_0 _ _ _ Hr) in H. unfold acknowledged in H.
  simpl. rewrite (bind_Ret _ _ _ _ Hr). rewrite H. reflexivity.
Qed.

(** One pass of the retry loop whose response is not acknowledged. *)
Lemma retry_from_failed (command : pystr) (n a : nat) (w : World) :
  acknowledged py (response_at command w 0) = false ->
  let rest := retry_from py config command n (S a)
                         (world (send_command command w)) in
  retry_from py config command (S n) a w
  = {| value := value rest;
       world := world rest;
       events := events (send_command command w)
                 ++ [Log WARNING
                         (AttemptFailed a command (response_at command w 0));
                     Sleep (COMMAND_RETRY_DELAY config)]
                 ++ events rest |}.
Proof.
  intros H rest. destruct (send_command_total command w) as [[r Hr] _].
  rewrite (response_at_0 _ _ _ Hr) in *. unfold acknowledged in H.
  simpl. rewrite (bind_Ret _ _ _ _ Hr). rewrite H. reflexivity.
Qed.

(** The retry loop never raises; it calls [send_command] on its command only,
    at least once when a pass is left, at most once per pass, and in every
    pass when it gives up. *)
Lemma retry_from_calls (command : pystr) (n : nat) :
  forall a w,
  exists b k,
    value (retry_from py config command n a w) = Ret b
    /\ calls_of (events (retry_from py config command n a w)) = repeat command k
    /\ (k <= n)%nat /\ (n <> O -> k <> O) /\ (b = false -> k = n).
Proof.
  induction n as [|n IH]; intros a w.
  - exists false, O. simpl. repeat split; auto.
  - destruct (send_command_total command w) as [_ Hc].
    destruct (acknowledged py (response_at command w 0)) eqn:E.
    + rewrite (retry_from_acknowledged _ _ _ _ E). simpl.
      exists true, 1%nat. rewrite calls_of_app, Hc. simpl.
      repeat split; auto; try lia; discriminate.
    + rewrite (retry_from_failed _ _ _ _ E). simpl.
      destruct (IH (S a) (world (send_command command w)))
        as (b & k & Hv & Hk & Hle & _ & Hb).
      exists b, (S k). rewrite calls_of_app, Hc. simpl. rewrite Hk.
      repeat split; auto; lia.
Qed.

Lemma flat_map_seq_S {A} (f : nat -> list A) (n : nat) :
  flat_map f (seq 0 (S n)) = f O ++ flat_map (fun i => f (S i)) (seq 0 n).
Proof.
  simpl. f_equal. rewrite <- seq_shift.
  generalize (seq 0 n) as l. induction l as [|x l IH]; simpl; [reflexivity|].
  rewrite IH. reflexivity.
Qed.

Lemma failed_attempt_S (command : pystr) (w : World) (a i : nat) :
  failed_attempt config command (world (send_command command w)) (S a) i
  = failed_attempt config command w a (S i).
Proof.
  unfold failed_attempt.
  rewrite after_sends_S, response_at_S, Nat.add_succ_r. reflexivity.
Qed.

Lemma failed_attempt_0 (command : pystr) (w : World) (a : nat) :
  failed_attempt config command w a 0
  = events (send_command command w)
    ++ [Log WARNING (AttemptFailed a command (response_at command w 0));
        Sleep (COMMAND_RETRY_DELAY config)].
Proof. unfold failed_attempt. rewrite Nat.add_0_r. reflexivity. Qed.

Lemma calls_of_failed_attempts (command : pystr) (w : World) (a : nat)
      (l : list nat) :
  calls_of (flat_map (failed_attempt config command w a) l)
  = repeat command (List.length l).
Proof.
  induction l as [|i l IH]; simpl; [reflexivity|].
  rewrite calls_of_app, IH. unfold failed_attempt.
  rewrite calls_of_app.
  rewrite (proj2 (send_command_total command (after_sends command w i))).
  reflexivity.
Qed.

(** The loop when attempt [k] is the first to be acknowledged. *)
Lemma retry_from_first_ok (command : pystr) (k : nat) :
  forall n a w,
    (k < n)%nat ->
    (forall i, (i < k)%nat -> acknowledged py (response_at command w i) = false) ->
    acknowledged py (response_at command w k) = true ->
    retry_from py config command n a w
    = {| value := Ret true;
         world := after_sends command w (S k);
         events := flat_map (failed_attempt config command w a) (seq 0 k)
                   ++ events (send_command command (after_sends command w k))
                   ++ [Log DEBUG (CommandAcknowledged command (a + k))] |}.
Proof.
  induction k as [|k IH]; intros n a w Hn Hfail Hok.
  - destruct n as [|n]; [lia|].
    rewrite (retry_from_acknowledged _ _ _ _ Hok), Nat.add_0_r. reflexivity.
  - destruct n as [|n]; [lia|].
    rewrite (retry_from_failed _ _ _ _ (Hfail O ltac:(lia))).
    rewrite (IH n (S a) (world (send_command command w))); try lia.
    + cbn [value world events]. rewrite flat_map_seq_S.
      rewrite (flat_map_ext _ _ (failed_attempt_S command w a)).
      rewrite failed_attempt_0, !after_sends_S, Nat.add_succ_r.
      rewrite <- !app_assoc. reflexivity.
    + intros i Hi. rewrite response_at_S. apply Hfail. lia.
    + rewrite response_at_S. exact Hok.
Qed.

(** The loop when no attempt is acknowledged. *)
Lemma retry_from_all_fail (command : pystr) (n : nat) :
  forall a w,
    (forall i, (i < n)%nat -> acknowledged py (response_at command w i) = false) ->
    retry_from py config command n a w
    = {| value := Ret false;
         world := after_sends command w n;
         events := flat_map (failed_attempt config command w a) (seq 0 n)
                   ++ [Log ERROR
                           (AllAttemptsFailed (COMMAND_RETRIES config) command)] |}.
Proof.
  induction n as [|n IH]; intros a w Hfail.
  - reflexivity.
  - rewrite (retry_from_failed _ _ _ _ (Hfail O ltac:(lia))).
    rewrite (IH (S a) (world (send_command command w))).
    + cbn [value world events]. rewrite flat_map_seq_S.
      rewrite (flat_map_ext _ _ (failed_attempt_S command w a)).
      rewrite failed_attempt_0, !after_sends_S.
      rewrite <- !app_assoc. reflexivity.
    + intros i Hi. rewrite response_at_S. apply Hfail. lia.
Qed.

(** C4.  [send_command_with_retry] calls [send_command] at most
    [COMMAND_RETRIES] times, always with its command.  If attempt [k] is the
    first whose response lower-cases to ["ok"], it returns [True] after exactly
    [k + 1] sends, each failed one followed by a warning and a wait of
    [COMMAND_RETRY_DELAY], and makes no further attempt.  If no response is
    acknowledged it makes exactly [COMMAND_RETRIES] sends, each followed by the
    warning and the wait, logs the failure and returns [False]. *)
Theorem send_command_with_retry_attempts (command : pystr) (w : World) :
  let retries := Z.to_nat (COMMAND_RETRIES config) in
  let run := send_command_with_retry py config command w in
  (exists k, (k <= retries)%nat /\ calls_of (events run) = repeat command k)
  /\ (forall k,
        (k < retries)%nat ->
        (forall i, (i < k)%nat ->
                   acknowledged py (response_at command w i) = false) ->
        acknowledged py (response_at command w k) = true ->
        value run = Ret true
        /\ world run = after_sends command w (S k)
        /\ events run
           = flat_map (failed_attempt config command w 1) (seq 0 k)
             ++ events (send_command command (after_sends command w k))
             ++ [Log DEBUG (CommandAcknowledged command (S k))]
        /\ calls_of (events run) = repeat command (S k))
  /\ ((forall i, (i < retries)%nat ->
                 acknowledged py (response_at command w i) = false) ->
      value run = Ret false
      /\ world run = after_sends command w retries
      /\ events run
         = flat_map (failed_attempt config command w 1) (seq 0 retries)
           ++ [Log ERROR (AllAttemptsFailed (COMMAND_RETRIES config) command)]
      /\ calls_of (events run) = repeat command retries).
Proof.
  intros retries run. unfold run, send_command_with_retry. fold retries.
  split; [|split].
  - destruct (retry_from_calls command retries 1 w)
      as (b & k & _ & Hk & Hle & _). exists k. auto.
  - intros k Hk Hfail Hok.
    rewrite (retry_from_first_ok command k retries 1 w Hk Hfail Hok).
    cbn [value world events]. repeat split.
    rewrite !calls_of_app, calls_of_failed_attempts, length_seq.
    rewrite (proj2 (send_command_total command (after_sends command w k))).
    simpl. rewrite <- repeat_cons. reflexivity.
  - intros Hfail.
    rewrite (retry_from_all_fail command retries 1 w Hfail).
    cbn [value world events]. repeat split.
    rewrite calls_of_app, calls_of_failed_attempts, length_seq.
    simpl. apply app_nil_r.
Qed.

End ChannelProperties.

#[local] Transparent send_command.

Lemma send_command_with_retry_attempts_witness :
  value (send_command_with_retry reference_runtime the_config
                                 (str "radio rx 0") busy_then_ok) = Ret true
  /\ calls_of (events (send_command_with_retry reference_runtime the_config
                                               (str "radio rx 0") busy_then_ok))
     = [str "radio rx 0"; str "radio rx 0"]
  /\ value (send_command_with_retry reference_runtime the_config
                                    (str "radio rx 0") quiet_world) = Ret false
  /\ calls_of (events (send_command_with_retry reference_runtime the_config
                                               (str "radio rx 0") quiet_world))
     = [str "radio rx 0"; str "radio rx 0"; str "radio rx 0"].
Proof.
  pose proof (send_command_with_retry_attempts reference_runtime the_config
                (str "radio rx 0") busy_then_ok) as [_ [A _]].
  pose proof (send_command_with_retry_attempts reference_runtime the_config
                (str "radio rx 0") quiet_world) as [_ [_ B]].
  specialize (A 1%nat).
  destruct A as (A1 & _ & _ & A2).
  { vm_compute. lia. }
  { intros i Hi. assert (i = O) by lia. subst i. vm_compute. reflexivity. }
  { vm_compute. reflexivity. }
  destruct B as (B1 & _ & _ & B2).
  { intros i Hi.
    change (Z.to_nat (COMMAND_RETRIES the_config)) with 3%nat in Hi.
    destruct i as [|[|[|i]]]; try lia; vm_compute; reflexivity. }
  repeat split; assumption.
Defined.

(** ** Configuration sequence *)

Lemma bind_emit {B} (e : event) (k : unit -> M B) (w : World) :
  bind (emit e) k w
  = {| value := value (k tt w); world := world (k tt w);
       events := e :: events (k tt w) |}.
Proof. reflexivity. Qed.

#[local] Opaque send_command.

Section ConfigureProperties.

Variable py : PyRuntime.
Variable config : Config.

#[local] Abbreviation swr := (send_command_with_retry py config).

Lemma swr_total (command : pystr) (w : World) :
  exists b k,
    value (swr command w) = Ret b
    /\ calls_of (events (swr command w)) = repeat command k
    /\ (b = true -> In command (calls_of (events (swr command w)))).
Proof.
  unfold send_command_with_retry.
  destruct (retry_from_calls py config command
              (Z.to_nat (COMMAND_RETRIES config)) 1 w)
    as (b & k & Hv & Hk & _ & Hpos & Hb).
  exists b, k. repeat split; auto.
  intros ->. rewrite Hk.
  destruct k as [|k]; [|left; reflexivity].
  destruct (Z.to_nat (COMMAND_RETRIES config)).
  - cbn in Hv. discriminate.
  - exfalso. exact (Hpos ltac:(discriminate) eq_refl).
Qed.

Lemma require_succeeds (command : pystr) (msg : string) (w : World) :
  succeeds py config command w ->
  require py config command msg w
  = {| value := Ret tt; world := world (swr command w);
       events := events (swr command w) |}.
Proof.
  intros H. unfold require. rewrite (bind_Ret _ _ _ _ H). simpl.
  rewrite app_nil_r. reflexivity.
Qed.

Lemma require_exhausts (command : pystr) (msg : string) (w : World) :
  exhausts py config command w ->
  require py config command msg w
  = {| value := Raise (IsException (PlainException msg));
       world := world (swr command w);
       events := events (swr command w) |}.
Proof.
  intros H. unfold require. rewrite (bind_Ret _ _ _ _ H). simpl.
  rewrite app_nil_r. reflexivity.
Qed.

Lemma succeeds_attempted (c c' : pystr) (w w' : World) :
  succeeds py config c w -> In c' (calls_of (events (swr c' w'))).
Proof.
  unfold succeeds, send_command_with_retry. intros H.
  destruct (retry_from_calls py config c'
              (Z.to_nat (COMMAND_RETRIES config)) 1 w')
    as (b & k & _ & Hk & _ & Hpos & _).
  rewrite Hk. destruct k as [|k]; [|left; reflexivity].
  destruct (Z.to_nat (COMMAND_RETRIES config)).
  - cbn in H. discriminate.
  - exfalso. exact (Hpos ltac:(discriminate) eq_refl).
Qed.

Lemma calls_swr_incl (c : pystr) (w : World) (l : list pystr) :
  In c l -> incl (calls_of (events (swr c w))) l.
Proof.
  intros H. destruct (swr_total c w) as (b & k & _ & Hk & _). rewrite Hk.
  intros x Hx. apply repeat_spec in Hx. subst x. exact H.
Qed.

Ltac send_step :=
  match goal with
  | |- context [bind (send_command ?c) ?k ?w] =>
      let r := fresh "r" in
      let Hr := fresh "Hr" in
      destruct (send_command_total c w) as [[r Hr] _];
      rewrite (bind_Ret _ _ _ _ Hr); cbv beta; clear r Hr
  end.

Ltac require_step H :=
  first
    [ rewrite (bind_Ret _ _ _ _ (f_equal value (require_succeeds _ _ _ H)));
      rewrite (require_succeeds _ _ _ H)
    | rewrite (bind_Raise _ _ _ _ (f_equal value (require_exhausts _ _ _ H)));
      rewrite (require_exhausts _ _ _ H) ];
  cbv beta; cbn [value world events].

Ltac prelude_steps :=
  unfold configure_sequence, log, sleep;
  rewrite bind_emit; send_step; rewrite !bind_emit; send_step;
  rewrite bind_emit.

Ltac calls_norm :=
  repeat first
    [ rewrite calls_of_app
    | rewrite (proj2 (send_command_total _ _))
    | progress cbn [calls_of app] ].

Ltac calls_incl :=
  calls_norm;
  repeat first
    [ apply incl_nil_l
    | apply incl_cons; [simpl; tauto|]
    | apply incl_app
    | apply calls_swr_incl; simpl; tauto ].

(** The [try] body when a prerequisite command exhausts its retries: it
    raises right after that command. *)
Lemma configure_sequence_aborts (w : World) :
  prerequisite_exhausted py config w ->
  exists msg w' evs,
    configure_sequence py config w
    = {| value := Raise (IsException (PlainException msg));
         world := w'; events := evs |}
    /\ incl (calls_of evs) (prerequisite_commands config).
Proof.
  unfold prerequisite_exhausted, exhausts, succeeds, at_pwr, at_cr, at_bw,
    at_pause, prerequisite_commands.
  intros [H | [[H1 H] | (H1 & H2 & H)]]; prelude_steps.
  - require_step H.
    do 3 eexists. split; [reflexivity|]. calls_incl.
  - require_step H1. require_step H.
    do 3 eexists. split; [reflexivity|]. calls_incl.
  - require_step H1. require_step H2. require_step H.
    do 3 eexists. split; [reflexivity|]. calls_incl.
Qed.

Ltac swr_step c w b :=
  let k := fresh "k" in
  let Hv := fresh "Hv" in
  destruct (swr_total c w) as (b & k & Hv & _);
  rewrite (bind_Ret _ _ _ _ Hv); cbv beta; clear k Hv.

Ltac list_norm :=
  repeat first
    [ rewrite <- app_assoc
    | rewrite <- app_comm_cons
    | progress cbn [app] ].

(** The [try] body when the prerequisites are acknowledged and the frequency
    command exhausts its retries: it goes on with the spreading factor and
    the receive mode, and returns. *)
Lemma configure_sequence_continues (w : World) :
  frequency_exhausted py config w ->
  exists pre sf_result rx_result w',
    configure_sequence py config w
    = {| value := Ret tt; world := w';
         events :=
           pre
           ++ [Log ERROR FailedToSetFrequency; Log INFO SettingSpreadingFactor]
           ++ events (swr (LORA_RADIO_SF_COMMAND config) (at_sf py config w))
           ++ [sf_result; Log INFO PuttingIntoReceiveMode]
           ++ events (swr (LORA_RADIO_RX_COMMAND config) (at_rx py config w))
           ++ [rx_result] |}.
Proof.
  unfold frequency_exhausted, exhausts, succeeds.
  intros (H1 & H2 & H3 & H4).
  exists (prelude_events config w
          ++ events (swr (LORA_RADIO_BW_COMMAND config) (at_bw config w))
          ++ events (swr (LORA_RADIO_CR_COMMAND config) (at_cr py config w))
          ++ events (swr (LORA_RADIO_PWR_COMMAND config) (at_pwr py config w))
          ++ [Log INFO SettingFrequency]
          ++ events (swr (LORA_RADIO_FREQ_COMMAND config) (at_freq py config w))).
  unfold at_rx, at_sf, at_freq, at_pwr, at_cr, at_bw, at_pause, prelude_events
    in *.
  prelude_steps.
  require_step H1. require_step H2. require_step H3.
  rewrite bind_emit. rewrite (bind_Ret _ _ _ _ H4). cbv beta iota.
  rewrite !bind_emit.
  match goal with
  | |- context [bind (swr ?c) _ ?w'] => swr_step c w' sf
  end.
  exists (if sf then Log INFO SpreadingFactorSet
          else Log ERROR FailedToSetSpreadingFactor).
  assert (Hsf : forall (k : unit -> M unit) (w0 : World),
             bind (if sf then emit (Log INFO SpreadingFactorSet)
                   else emit (Log ERROR FailedToSetSpreadingFactor)) k w0
             = {| value := value (k tt w0); world := world (k tt w0);
                  events := (if sf then Log INFO SpreadingFactorSet
                             else Log ERROR FailedToSetSpreadingFactor)
                            :: events (k tt w0) |}).
  { intros k w0. destruct sf; apply bind_emit. }
  rewrite Hsf, bind_emit.
  match goal with
  | |- context [bind (swr ?c) _ ?w'] => swr_step c w' rx
  end.
  exists (if rx then Log INFO NowInReceiveMode
          else Log ERROR FailedToSetReceiveMode).
  eexists.
  destruct rx; cbn [value world events log emit]; list_norm; reflexivity.
Qed.

(** C1 (amended).  If the bandwidth, coding-rate or power command exhausts its
    retries, [configure_gateway] sends nothing but the commands up to the
    power command, so that the frequency, spreading-factor and receive-mode
    commands are never attempted (as long as they differ from the earlier
    ones); it ends with an error record of the failure and returns to its
    caller as it does after a success.  If those three are acknowledged and the
    frequency command exhausts its retries, the failure is logged and the
    spreading-factor and receive-mode commands are then attempted through
    [send_command_with_retry]. *)
Theorem configure_gateway_policy (w : World) :
  let run := configure_gateway py config w in
  (prerequisite_exhausted py config w ->
   value run = Ret tt
   /\ (exists pre msg,
         events run
         = pre ++ [Log ERROR (ErrorConfiguringGateway (PlainException msg))])
   /\ (forall c, ~ In c (prerequisite_commands config) ->
                 ~ In c (calls_of (events run))))
  /\ (frequency_exhausted py config w ->
      value run = Ret tt
      /\ (exists pre sf_result rx_result,
            events run
            = pre
              ++ [Log ERROR FailedToSetFrequency;
                  Log INFO SettingSpreadingFactor]
              ++ events (swr (LORA_RADIO_SF_COMMAND config) (at_sf py config w))
              ++ [sf_result; Log INFO PuttingIntoReceiveMode]
              ++ events (swr (LORA_RADIO_RX_COMMAND config) (at_rx py config w))
              ++ [rx_result])
      /\ In (LORA_RADIO_SF_COMMAND config) (calls_of (events run))
      /\ In (LORA_RADIO_RX_COMMAND config) (calls_of (events run))).
Proof.
  intros run. unfold run, configure_gateway, try_except. split.
  - intros H. destruct (configure_sequence_aborts w H)
      as (msg & w' & evs & E & Hincl).
    rewrite E. cbn. repeat split.
    + exists evs, msg. reflexivity.
    + intros c Hc Hin. apply Hc. apply Hincl.
      rewrite calls_of_app in Hin. simpl in Hin. rewrite app_nil_r in Hin.
      exact Hin.
  - intros H. destruct (configure_sequence_continues w H)
      as (pre & sf_result & rx_result & w' & E).
    rewrite E. cbn [value world events]. destruct H as (H1 & _).
    repeat split.
    + exists pre, sf_result, rx_result. reflexivity.
    + rewrite !calls_of_app. apply in_or_app. right.
      apply in_or_app. right. apply in_or_app. left.
      exact (succeeds_attempted _ _ _ _ H1).
    + rewrite !calls_of_app. apply in_or_app. right.
      apply in_or_app. right. apply in_or_app. right.
      apply in_or_app. right. apply in_or_app. left.
      exact (succeeds_attempted _ _ _ _ H1).
Qed.

End ConfigureProperties.

#[local] Transparent send_command.

Lemma configure_gateway_policy_witness :
  (prerequisite_exhausted reference_runtime the_config quiet_world
   /\ ~ In (str "radio set freq 910000000")
           (calls_of (events (configure_gateway reference_runtime the_config
                                                quiet_world)))
   /\ ~ In (str "radio set sf sf7")
           (calls_of (events (configure_gateway reference_runtime the_config
                                                quiet_world)))
   /\ ~ In (str "radio rx 0")
           (calls_of (events (configure_gateway reference_runtime the_config
                                                quiet_world))))
  /\ (frequency_exhausted reference_runtime the_config frequency_rejected_world
      /\ In (str "radio set sf sf7")
            (calls_of (events (configure_gateway reference_runtime the_config
                                                 frequency_rejected_world)))
      /\ In (str "radio rx 0")
            (calls_of (events (configure_gateway reference_runtime the_config
                                                 frequency_rejected_world)))).
Proof.
  pose proof (configure_gateway_policy reference_runtime the_config
                quiet_world) as [A _].
  pose proof (configure_gateway_policy reference_runtime the_config
                frequency_rejected_world) as [_ B].
  assert (HA : prerequisite_exhausted reference_runtime the_config quiet_world).
  { left. vm_compute. reflexivity. }
  assert (HB : frequency_exhausted reference_runtime the_config
                                   frequency_rejected_world).
  { repeat split; vm_compute; reflexivity. }
  destruct (A HA) as (_ & _ & A3). destruct (B HB) as (_ & _ & B3 & B4).
  split; [split; [exact HA|]|split; [exact HB|split; assumption]].
  repeat split; apply A3; apply not_In_by_eqb; vm_compute; reflexivity.
Defined.

(** C1, as stated, fails: what [configure_gateway] gives back to its caller
    when the bandwidth command exhausts its retries is what it gives back when
    every command is acknowledged. *)
Lemma configure_failure_not_reported :
  prerequisite_exhausted reference_runtime the_config quiet_world
  /\ value (configure_gateway reference_runtime the_config quiet_world) = Ret tt
  /\ calls_of (events (configure_gateway reference_runtime the_config ok_world))
     = [str "sys reset"; str "mac pause"; str "radio set bw 125";
        str "radio set cr 4/5"; str "radio set pwr 20";
        str "radio set freq 910000000"; str "radio set sf sf7";
        str "radio rx 0"]
  /\ value (configure_gateway reference_runtime the_config ok_world) = Ret tt.
Proof.
  split; [left; vm_compute; reflexivity|].
  repeat split; vm_compute; reflexivity.
Qed.

(** ** Message processing *)

Lemma pystr_eqb_eq (a b : pystr) : pystr_eqb a b = true <-> a = b.
Proof.
  revert b. induction a as [|x a IH]; intros [|y b]; simpl; split; intros H;
    try discriminate; try reflexivity.
  - apply andb_prop in H. destruct H as [H1 H2].
    apply N.eqb_eq in H1. apply IH in H2. subst. reflexivity.
  - inversion H; subst. rewrite N.eqb_refl. simpl. apply IH. reflexivity.
Qed.

Lemma dict_get_absent (items : list (pystr * JValue)) (key : pystr)
      (default : JValue) :
  (forall v, ~ In (key, v) items) -> dict_get items key default = default.
Proof.
  intros H. unfold dict_get.
  destruct (find (fun kv => pystr_eqb (fst kv) key) items) as [[k v]|] eqn:E;
    [|reflexivity].
  apply find_some in E. destruct E as [Hin Hk]. simpl in Hk.
  apply pystr_eqb_eq in Hk. subst k. exfalso. exact (H v Hin).
Qed.

Lemma dict_get_present (before after : list (pystr * JValue)) (key : pystr)
      (v default : JValue) :
  (forall v', ~ In (key, v') before) ->
  dict_get (before ++ (key, v) :: after) key default = v.
Proof.
  intros H. unfold dict_get.
  induction before as [|[k v'] before IH]; simpl.
  - rewrite (proj2 (pystr_eqb_eq key key) eq_refl). reflexivity.
  - destruct (pystr_eqb k key) eqn:E.
    + apply pystr_eqb_eq in E. subst k. exfalso. apply (H v'). left. reflexivity.
    + apply IH. intros v'' Hin. apply (H v''). right. exact Hin.
Qed.

Lemma log_fields_run (items : list (pystr * JValue)) (w : World) :
  log_fields items w
  = {| value := Ret tt; world := w;
       events := map (fun kv => Log INFO (JsonField (fst kv) (snd kv))) items |}.
Proof.
  induction items as [|[k v] items IH]; [reflexivity|].
  simpl. unfold log. rewrite bind_emit, IH. reflexivity.
Qed.

#[local] Opaque send_command.

Section ProcessingProperties.

Variable py : PyRuntime.
Variable config : Config.

#[local] Abbreviation swr := (send_command_with_retry py config).

(** The uploader issues its request first, and whatever it raises is below
    [Exception]. *)
Lemma send_post_request_cases (data : UploadPayload) (w : World) :
  (exists rest,
      events (send_post_request config data w)
      = HttpPost (POST_URL config) data :: rest)
  /\ (value (send_post_request config data w) = Ret tt
      \/ exists e, value (send_post_request config data w)
                   = Raise (IsException e)).
Proof.
  unfold send_post_request, try_except, bind, requests_post, lift, log, emit,
    ret, raise. cbn.
  destruct (hd (inr RequestException) (posts w)) as [r|e]; cbn.
  - destruct (status_code r =? 200)%Z; cbn; [|eauto].
    destruct (json r) as [v|e]; cbn; [eauto|].
    destruct e; cbn; eauto.
  - destruct e; cbn; eauto.
Qed.

End ProcessingProperties.

(** * Further properties *)

#[local] Transparent send_command.

(** ** Composition of computations *)

Lemma bind_ret_l {A B} (a : A) (k : A -> M B) (w : World) :
  bind (ret a) k w
  = {| value := value (k a w); world := world (k a w);
       events := events (k a w) |}.
Proof. reflexivity. Qed.

Lemma bind_cases {A B} (m : M A) (k : A -> M B) (w : World) :
  (exists a, value (m w) = Ret a
             /\ bind m k w
                = {| value := value (k a (world (m w)));
                     world := world (k a (world (m w)));
                     events := events (m w) ++ events (k a (world (m w))) |})
  \/ (exists x, value (m w) = Raise x
                /\ bind m k w
                   = {| value := Raise x; world := world (m w);
                        events := events (m w) |}).
Proof.
  destruct (value (m w)) as [a|x] eqn:E.
  - left. exists a. split; [reflexivity|]. apply bind_Ret. exact E.
  - right. exists x. split; [reflexivity|]. apply bind_Raise. exact E.
Qed.

Lemma posts_of_app (a b : list event) :
  posts_of (a ++ b) = posts_of a ++ posts_of b.
Proof.
  induction a as [|e a IH]; simpl; [reflexivity|].
  destruct e; simpl; rewrite IH; reflexivity.
Qed.

Lemma writes_of_app (a b : list event) :
  writes_of (a ++ b) = writes_of a ++ writes_of b.
Proof.
  induction a as [|e a IH]; simpl; [reflexivity|].
  destruct e; simpl; rewrite IH; reflexivity.
Qed.

Lemma slept_app (a b : list event) : slept (a ++ b) = slept a + slept b.
Proof.
  induction a as [|e a IH]; simpl; [reflexivity|].
  destruct e; simpl; rewrite IH; lia.
Qed.

(** *** Computations that are never interrupted *)

Lemma ni_ret {A} (a : A) : never_interrupted (ret a).
Proof. intros w. discriminate. Qed.

Lemma ni_emit (e : event) : never_interrupted (emit e).
Proof. intros w. discriminate. Qed.

Lemma ni_raise {A} (e : Exception) :
  never_interrupted (@raise A (IsException e)).
Proof. intros w. discriminate. Qed.

Lemma ni_lift {A} (r : A + Exception) : never_interrupted (lift r).
Proof. destruct r; intros w; discriminate. Qed.

Lemma ni_bind {A B} (m : M A) (k : A -> M B) :
  never_interrupted m -> (forall a, never_interrupted (k a)) ->
  never_interrupted (bind m k).
Proof.
  intros Hm Hk w. destruct (bind_cases m k w) as [(a & _ & E) | (x & Hx & E)];
    rewrite E; cbn [value].
  - apply Hk.
  - intros H. inversion H; subst. exact (Hm w Hx).
Qed.

Lemma ni_try {A} (m : M A) (h : BaseException -> option (M A)) :
  never_interrupted m ->
  (forall e k, h (IsException e) = Some k -> never_interrupted k) ->
  never_interrupted (try_except m h).
Proof.
  intros Hm Hh w. unfold try_except.
  destruct (value (m w)) as [a|x] eqn:E.
  - rewrite E. discriminate.
  - destruct x as [|e]; [exfalso; exact (Hm w E)|].
    destruct (h (IsException e)) as [k|] eqn:Ek.
    + cbn [value]. exact (Hh e k Ek _).
    + rewrite E. discriminate.
Qed.

Lemma ni_if {A} (b : bool) (m1 m2 : M A) :
  never_interrupted m1 -> never_interrupted m2 ->
  never_interrupted (if b then m1 else m2).
Proof. destruct b; auto. Qed.

Lemma ni_send_command (command : pystr) :
  never_interrupted (send_command command).
Proof.
  intros w. destruct (send_command_total command w) as [[r Hr] _].
  rewrite Hr. discriminate.
Qed.

Lemma ni_send_command_with_retry (py : PyRuntime) (config : Config)
      (command : pystr) :
  never_interrupted (send_command_with_retry py config command).
Proof.
  intros w. destruct (swr_total py config command w) as (b & k & Hv & _).
  rewrite Hv. discriminate.
Qed.

Lemma ni_log_fields (items : list (pystr * JValue)) :
  never_interrupted (log_fields items).
Proof. intros w. rewrite log_fields_run. discriminate. Qed.

Ltac ni_solve :=
  repeat first
    [ apply ni_ret | apply ni_emit | apply ni_raise | apply ni_lift
    | apply ni_send_command | apply ni_send_command_with_retry
    | apply ni_log_fields
    | apply ni_bind; [|intros ?]
    | apply ni_if ].

Section Returning.

Variable py : PyRuntime.
Variable config : Config.

Lemma ni_require (command : pystr) (msg : string) :
  never_interrupted (require py config command msg).
Proof. unfold require. ni_solve. Qed.

Lemma ni_configure_sequence : never_interrupted (configure_sequence py config).
Proof.
  unfold configure_sequence, log, sleep.
  repeat first [ apply ni_require | progress ni_solve ].
Qed.

(** [configure_gateway] returns to its caller whatever the device answers:
    a failed prerequisite is caught and logged, and nothing else raises. *)
Lemma configure_gateway_value (w : World) :
  value (configure_gateway py config w) = Ret tt.
Proof.
  unfold configure_gateway, try_except.
  destruct (value (configure_sequence py config w)) as [[]|[|e]] eqn:E.
  - exact E.
  - exfalso. exact (ni_configure_sequence w E).
  - reflexivity.
Qed.

End Returning.

(** ** The command channel *)

Lemma bind_get_port {B} (k : PortState -> M B) (w : World) :
  bind get_port k w
  = {| value := value (k (port w) w); world := world (k (port w) w);
       events := events (k (port w) w) |}.
Proof. reflexivity. Qed.

Lemma try_except_Ret {A} (m : M A) (h : BaseException -> option (M A))
      (w : World) (a : A) :
  value (m w) = Ret a -> try_except m h w = m w.
Proof. intros H. unfold try_except. rewrite H. reflexivity. Qed.

Lemma try_except_Raise {A} (m : M A) (h : BaseException -> option (M A))
      (w : World) (x : BaseException) (k : M A) :
  value (m w) = Raise x -> h x = Some k ->
  try_except m h w
  = {| value := value (k (world (m w))); world := world (k (world (m w)));
       events := events (m w) ++ events (k (world (m w))) |}.
Proof. intros H Hk. unfold try_except. rewrite H, Hk. reflexivity. Qed.


(** Steps of a computation: through logging and waiting, and through a step
    whose value is known. *)
Ltac run_binds :=
  repeat (rewrite bind_emit; cbv beta; cbn [value world events]).

Ltac run_bind E :=
  run_binds; rewrite (bind_Ret _ _ _ _ E); cbv beta;
  cbn [value world events]; run_binds.

(** With no open port [send_command] writes nothing: it logs the error and
    returns the empty string, and the world is left as it was. *)
Lemma send_command_port_not_open (command : pystr) (w : World) :
  port w <> PortOpen ->
  send_command command w
  = {| value := Ret []; world := w;
       events := [Call command; Log ERROR SerialNotOpen] |}.
Proof.
  intros H. unfold send_command. rewrite bind_emit, bind_get_port.
  cbn [value world events].
  destruct (port w); [reflexivity | reflexivity | contradiction].
Qed.

(** The five ways a send on an open port can go. *)
Lemma send_command_open (command : pystr) (w : World) :
  port w = PortOpen ->
  let framed := [Call command; SerialWrite (command ++ [13; 10])] in
  let sent := framed ++ [Log DEBUG (SentCommand command); Sleep 100] in
  (hd true (writes w) = false
   /\ value (send_command command w) = Ret []
   /\ events (send_command command w)
      = framed ++ [Log ERROR SerialExceptionDuringSend])
  \/ (hd true (writes w) = true /\ hd (Some []) (reads w) = None
      /\ value (send_command command w) = Ret []
      /\ events (send_command command w)
         = sent ++ [Log ERROR SerialExceptionDuringSend])
  \/ (exists raw,
        hd true (writes w) = true /\ hd (Some []) (reads w) = Some raw
        /\ decode_utf8 raw = None
        /\ value (send_command command w) = Ret []
        /\ events (send_command command w)
           = sent ++ [Log ERROR UnicodeDecodeErrorDuringSend])
  \/ (exists raw s,
        hd true (writes w) = true /\ hd (Some []) (reads w) = Some raw
        /\ decode_utf8 raw = Some s
        /\ value (send_command command w) = Ret (strip s)
        /\ events (send_command command w)
           = sent ++ [Log DEBUG (ReceivedResponse (strip s))]).
Proof.
  intros H framed sent. subst framed sent.
  unfold send_command. rewrite bind_emit, bind_get_port, H.
  cbn [value world events]. unfold log, sleep.
  destruct (hd true (writes w)) eqn:Hw.
  - assert (E1 : value (ser_write (command ++ [13; 10]) w) = Ret tt).
    { unfold ser_write. cbn. rewrite Hw. reflexivity. }
    right.
    destruct (hd (Some []) (reads w)) as [raw|] eqn:Hr.
    + assert (E2 : value (ser_readline
                            (world (ser_write (command ++ [13; 10]) w)))
                   = Ret raw).
      { unfold ser_readline, ser_write. cbn. rewrite Hr. reflexivity. }
      right. destruct (decode_utf8 raw) as [s|] eqn:Hd.
      * right. exists raw, s.
        erewrite try_except_Ret.
        2:{ run_bind E1. run_bind E2. rewrite Hd. run_binds. reflexivity. }
        run_bind E1. run_bind E2. rewrite Hd. run_binds. cbn. auto.
      * left. exists raw.
        erewrite try_except_Raise.
        2:{ run_bind E1. run_bind E2. rewrite Hd. reflexivity. }
        2:{ reflexivity. }
        run_bind E1. run_bind E2. rewrite Hd. run_binds. cbn. auto.
    + assert (E2 : value (ser_readline
                            (world (ser_write (command ++ [13; 10]) w)))
                   = Raise (IsException SerialException)).
      { unfold ser_readline, ser_write. cbn. rewrite Hr. reflexivity. }
      left.
      erewrite try_except_Raise.
      2:{ run_bind E1. rewrite (bind_Raise _ _ _ _ E2). reflexivity. }
      2:{ reflexivity. }
      run_bind E1. rewrite (bind_Raise _ _ _ _ E2). run_binds. cbn. auto.
  - assert (E1 : value (ser_write (command ++ [13; 10]) w)
                 = Raise (IsException SerialException)).
    { unfold ser_write. cbn. rewrite Hw. reflexivity. }
    left.
    erewrite try_except_Raise.
    2:{ rewrite (bind_Raise _ _ _ _ E1). reflexivity. }
    2:{ reflexivity. }
    rewrite (bind_Raise _ _ _ _ E1). run_binds. cbn. auto.
Qed.

Lemma errors_of_app (a b : list event) :
  errors_of (a ++ b) = errors_of a ++ errors_of b.
Proof. unfold errors_of. apply flat_map_app. Qed.

(** The outcomes of a send, by what was returned and by what failed. *)
Lemma send_command_failure_modes (command : pystr) (w : World) :
  (exists r, value (send_command command w) = Ret r)
  /\ (forall r, value (send_command command w) = Ret r -> r <> [] ->
                writes_of (events (send_command command w))
                = [command ++ [13; 10]]
                /\ errors_of (events (send_command command w)) = []
                /\ In (Log DEBUG (ReceivedResponse r))
                      (events (send_command command w)))
  /\ (port w <> PortOpen \/ hd true (writes w) = false
      \/ hd (Some []) (reads w) = None
      \/ (exists raw, hd (Some []) (reads w) = Some raw
                      /\ decode_utf8 raw = None) ->
      value (send_command command w) = Ret []
      /\ List.length (errors_of (events (send_command command w))) = 1%nat).
Proof.
  destruct (port w) eqn:Hp;
    try (rewrite (send_command_port_not_open command w) by congruence;
         cbn; repeat split; eauto; intros; congruence).
  destruct (send_command_open command w Hp)
    as [(Hw & Hv & He) | [(Hw & Hr & Hv & He) | [(raw & Hw & Hr & Hd & Hv & He)
       | (raw & s & Hw & Hr & Hd & Hv & He)]]];
    rewrite Hv, He; cbn; (split; [eauto|split]);
    try (intros r Er Hn; inversion Er; subst; congruence);
    try (intros _; split; reflexivity).
  - intros r Er _. inversion Er; subst. repeat split. simpl. tauto.
  - intros [H | [H | [H | (raw' & H & H')]]]; congruence.
Qed.



(** *** White space around a response *)

Lemma lstrip_split (s : pystr) :
  exists p, s = p ++ lstrip s /\ forallb isspace p = true.
Proof.
  induction s as [|c s (p & E & Hp)]; simpl.
  - exists []. auto.
  - destruct (isspace c) eqn:Ec.
    + exists (c :: p). simpl. rewrite Ec, Hp. split; [congruence|reflexivity].
    + exists []. auto.
Qed.

Lemma lstrip_head (s : pystr) (c : N) (rest : pystr) :
  lstrip s = c :: rest -> isspace c = false.
Proof.
  induction s as [|d s IH]; simpl; [discriminate|].
  destruct (isspace d) eqn:Ed; [exact IH|].
  intros H. inversion H; subst. exact Ed.
Qed.

Lemma lstrip_fixed (s : pystr) :
  (forall c rest, s = c :: rest -> isspace c = false) -> lstrip s = s.
Proof.
  destruct s as [|c s]; [reflexivity|]. intros H. simpl.
  rewrite (H c s eq_refl). reflexivity.
Qed.

(** A stripped string neither starts nor ends with white space. *)
Lemma strip_ends (s : pystr) :
  (forall c rest, strip s = c :: rest -> isspace c = false)
  /\ (forall pre c, strip s = pre ++ [c] -> isspace c = false).
Proof.
  unfold strip. split.
  - intros c rest H.
    destruct (lstrip_split (rev (lstrip s))) as (p & E & _).
    apply (f_equal (@rev N)) in E. rewrite rev_involutive, rev_app_distr in E.
    rewrite H in E. simpl in E. exact (lstrip_head s c _ E).
  - intros pre c H. apply (f_equal (@rev N)) in H.
    rewrite rev_involutive, rev_app_distr in H. simpl in H.
    exact (lstrip_head _ c _ H).
Qed.

(** X5.  The response that [send_command] returns neither starts nor ends
    with a white-space character. *)
Theorem send_command_response_stripped (command : pystr) (w : World)
        (r : pystr) :
  value (send_command command w) = Ret r ->
  (forall c rest, r = c :: rest -> isspace c = false)
  /\ (forall pre c, r = pre ++ [c] -> isspace c = false).
Proof.
  intros H.
  assert (E : r = [] \/ exists s, r = strip s).
  { destruct (port w) eqn:Hp;
      try (rewrite (send_command_port_not_open command w) in H by congruence;
           inversion H; auto).
    destruct (send_command_open command w Hp)
      as [(_ & Hv & _) | [(_ & _ & Hv & _) | [(raw & _ & _ & _ & Hv & _)
         | (raw & s & _ & _ & _ & Hv & _)]]];
      rewrite Hv in H; inversion H; eauto. }
  destruct E as [-> | [s ->]].
  - split; [discriminate|]. intros [|x pre] c E; discriminate.
  - apply strip_ends.
Qed.

Lemma send_command_response_stripped_witness :
  value (send_command (str "sys get ver") busy_then_ok) = Ret (str "busy")
  /\ (forall c rest, str "busy" = c :: rest -> isspace c = false).
Proof.
  assert (H : value (send_command (str "sys get ver") busy_then_ok)
              = Ret (str "busy")) by (vm_compute; reflexivity).
  split; [exact H|].
  exact (proj1 (send_command_response_stripped _ _ _ H)).
Defined.

(** ** The retry loop *)

Section RetryProperties.

Variable py : PyRuntime.
Variable config : Config.

(** X6.  With a retry count of zero or less nothing is sent: the loop body
    never runs, the failure is logged and [False] returned. *)
Theorem send_command_with_retry_no_attempts (command : pystr) (w : World) :
  (COMMAND_RETRIES config <= 0)%Z ->
  send_command_with_retry py config command w
  = {| value := Ret false; world := w;
       events := [Log ERROR
                      (AllAttemptsFailed (COMMAND_RETRIES config) command)] |}.
Proof.
  intros H. unfold send_command_with_retry.
  replace (Z.to_nat (COMMAND_RETRIES config)) with O by lia. reflexivity.
Qed.

Lemma slept_failed_attempts (command : pystr) (w : World) (a : nat)
      (l : list nat) :
  N.of_nat (List.length l) * COMMAND_RETRY_DELAY config
  <= slept (flat_map (failed_attempt config command w a) l).
Proof.
  induction l as [|i l IH]; [simpl; lia|].
  cbn [flat_map List.length]. rewrite slept_app. unfold failed_attempt at 1.
  rewrite slept_app. cbn [slept]. lia.
Qed.

(** X7.  When no attempt is acknowledged the loop has slept at least
    [COMMAND_RETRIES] times the retry delay: it waits after the last failed
    attempt too. *)
Theorem send_command_with_retry_waits (command : pystr) (w : World) :
  (forall i, (i < Z.to_nat (COMMAND_RETRIES config))%nat ->
             acknowledged py (response_at command w i) = false) ->
  N.of_nat (Z.to_nat (COMMAND_RETRIES config)) * COMMAND_RETRY_DELAY config
  <= slept (events (send_command_with_retry py config command w)).
Proof.
  intros H. unfold send_command_with_retry.
  rewrite (retry_from_all_fail py config command _ 1 w H).
  cbn [events]. rewrite slept_app.
  pose proof (slept_failed_attempts command w 1
                (seq 0 (Z.to_nat (COMMAND_RETRIES config)))) as B.
  rewrite length_seq in B. lia.
Qed.

(** On a port that is not open no attempt is acknowledged and the world
    stays as it is. *)
Lemma retry_from_port_not_open (command : pystr) (n : nat) :
  forall a w,
    port w <> PortOpen ->
    value (retry_from py config command n a w) = Ret false
    /\ world (retry_from py config command n a w) = w
    /\ writes_of (events (retry_from py config command n a w)) = []
    /\ calls_of (events (retry_from py config command n a w))
       = repeat command n.
Proof.
  induction n as [|n IH]; intros a w Hp.
  - repeat split.
  - cbn [retry_from].
    assert (E : value (send_command command w) = Ret [])
      by (rewrite (send_command_port_not_open command w Hp); reflexivity).
    rewrite (bind_Ret _ _ _ _ E).
    rewrite (send_command_port_not_open command w Hp).
    cbn [value world events]. change (pystr_eqb (lower py []) (str "ok")) with false.
    cbv iota. unfold log, sleep. rewrite !bind_emit.
    destruct (IH (S a) w Hp) as (Hv & Hw & Hwr & Hc).
    cbn [value world events app writes_of calls_of].
    rewrite Hv, Hw, Hwr, Hc. repeat split.
Qed.

(** X8.  On a port that is not open [send_command_with_retry] makes all its
    attempts without writing anything to the port, returns [False] and leaves
    the world as it was. *)
Theorem send_command_with_retry_port_not_open (command : pystr) (w : World) :
  port w <> PortOpen ->
  value (send_command_with_retry py config command w) = Ret false
  /\ world (send_command_with_retry py config command w) = w
  /\ writes_of (events (send_command_with_retry py config command w)) = []
  /\ calls_of (events (send_command_with_retry py config command w))
     = repeat command (Z.to_nat (COMMAND_RETRIES config)).
Proof.
  intros H. unfold send_command_with_retry.
  apply retry_from_port_not_open. exact H.
Qed.

(** X9.  For a response of ASCII characters the acknowledgment test holds
    for the four spellings of [ok] and for nothing else. *)
Theorem acknowledged_ascii (r : pystr) :
  forallb (fun c => c <? 128) r = true ->
  (acknowledged py r = true
   <-> r = str "ok" \/ r = str "OK" \/ r = str "Ok" \/ r = str "oK").
Proof.
  intros H. unfold acknowledged, lower. rewrite H.
  change (str "ok") with [111; 107]. change (str "OK") with [79; 75].
  change (str "Ok") with [79; 107]. change (str "oK") with [111; 75].
  assert (L : forall c x, 97 <= x <= 122 ->
                (ascii_lower c =? x) = true <-> c = x \/ c = x - 32).
  { intros c x Hx. unfold ascii_lower. rewrite N.eqb_eq.
    destruct (N.leb_spec 65 c), (N.leb_spec c 90); simpl; lia. }
  destruct r as [|a [|b [|c r]]]; simpl.
  - split; [discriminate|]. intros [E|[E|[E|E]]]; discriminate.
  - rewrite andb_false_r.
    split; [discriminate|]. intros [E|[E|[E|E]]]; discriminate.
  - rewrite andb_true_r, andb_true_iff.
    rewrite (L a 111), (L b 107) by lia. simpl.
    split.
    + intros [[-> | ->] [-> | ->]]; auto.
    + intros [E|[E|[E|E]]]; inversion E; auto.
  - rewrite !andb_false_r.
    split; [discriminate|]. intros [E|[E|[E|E]]]; discriminate.
Qed.

End RetryProperties.

Lemma send_command_with_retry_no_attempts_witness :
  send_command_with_retry reference_runtime
    {| LORA_RESET_COMMAND := []; LORA_MAC_PAUSE_COMMAND := [];
       LORA_RADIO_BW_COMMAND := []; LORA_RADIO_CR_COMMAND := [];
       LORA_RADIO_PWR_COMMAND := []; LORA_RADIO_FREQ_COMMAND := [];
       LORA_RADIO_SF_COMMAND := []; LORA_RADIO_RX_COMMAND := str "radio rx 0";
       COMMAND_RETRIES := 0; COMMAND_RETRY_DELAY := 500; POST_URL := [];
       SENSOR_ID := 1; GATEWAY_ID := [] |}
    (str "radio rx 0") ok_world
  = {| value := Ret false; world := ok_world;
       events := [Log ERROR (AllAttemptsFailed 0 (str "radio rx 0"))] |}.
Proof.
  apply (send_command_with_retry_no_attempts reference_runtime
           {| LORA_RESET_COMMAND := []; LORA_MAC_PAUSE_COMMAND := [];
              LORA_RADIO_BW_COMMAND := []; LORA_RADIO_CR_COMMAND := [];
              LORA_RADIO_PWR_COMMAND := []; LORA_RADIO_FREQ_COMMAND := [];
              LORA_RADIO_SF_COMMAND := []; LORA_RADIO_RX_COMMAND := str "radio rx 0";
              COMMAND_RETRIES := 0; COMMAND_RETRY_DELAY := 500; POST_URL := [];
              SENSOR_ID := 1; GATEWAY_ID := [] |}).
  simpl. lia.
Defined.

Lemma send_command_with_retry_waits_witness :
  1500 <= slept (events (send_command_with_retry reference_runtime the_config
                           (str "radio rx 0") quiet_world)).
Proof.
  apply (send_command_with_retry_waits reference_runtime the_config
           (str "radio rx 0") quiet_world).
  intros i Hi.
  change (Z.to_nat (COMMAND_RETRIES the_config)) with 3%nat in Hi.
  destruct i as [|[|[|i]]]; try lia; vm_compute; reflexivity.
Defined.

Lemma send_command_with_retry_port_not_open_witness :
  value (send_command_with_retry reference_runtime the_config
           (str "radio rx 0")
           {| port := NoPort; writes := []; reads := []; polls := [];
              posts := [] |}) = Ret false.
Proof.
  apply (send_command_with_retry_port_not_open reference_runtime the_config
           (str "radio rx 0")
           {| port := NoPort; writes := []; reads := []; polls := [];
              posts := [] |}).
  discriminate.
Defined.

Lemma acknowledged_ascii_witness :
  acknowledged reference_runtime (str "Ok") = true
  <-> str "Ok" = str "ok" \/ str "Ok" = str "OK" \/ str "Ok" = str "Ok"
      \/ str "Ok" = str "oK".
Proof.
  apply (acknowledged_ascii reference_runtime (str "Ok")). reflexivity.
Defined.

(** ** The configuration sequence, further *)

Lemma events_bind_prefix {A B} (m : M A) (k : A -> M B) (w : World) :
  exists rest, events (bind m k w) = events (m w) ++ rest.
Proof.
  destruct (bind_cases m k w) as [(a & _ & E) | (x & _ & E)]; rewrite E;
    cbn [events]; eexists; [reflexivity | symmetry; apply app_nil_r].
Qed.

Lemma events_try_prefix {A} (m : M A) (h : BaseException -> option (M A))
      (w : World) :
  exists rest, events (try_except m h w) = events (m w) ++ rest.
Proof.
  unfold try_except. destruct (value (m w)) as [a|x].
  - exists []. symmetry. apply app_nil_r.
  - destruct (h x) as [k|]; cbn [events]; eexists;
      [reflexivity | symmetry; apply app_nil_r].
Qed.

Section ConfigureFurther.

Variable py : PyRuntime.
Variable config : Config.

#[local] Abbreviation swr := (send_command_with_retry py config).

Lemma events_require (command : pystr) (msg : string) (w : World) :
  events (require py config command msg w) = events (swr command w).
Proof.
  destruct (swr_total py config command w) as (b & k & Hv & _).
  destruct b.
  - rewrite (require_succeeds py config command msg w Hv). reflexivity.
  - rewrite (require_exhausts py config command msg w Hv). reflexivity.
Qed.

Ltac send_step :=
  match goal with
  | |- context [bind (send_command ?c) ?k ?w] =>
      let r := fresh "r" in
      let Hr := fresh "Hr" in
      destruct (send_command_total c w) as [[r Hr] _];
      run_bind Hr; clear r Hr
  end.

Ltac prelude_steps :=
  unfold configure_sequence, log, sleep; run_binds; send_step; send_step.

Ltac require_ok H :=
  rewrite (bind_Ret _ _ _ _ (f_equal value (require_succeeds py config _ _ _ H)));
  rewrite (require_succeeds py config _ _ _ H);
  cbv beta; cbn [value world events]; run_binds.

Ltac require_ko H :=
  rewrite (bind_Raise _ _ _ _ (f_equal value (require_exhausts py config _ _ _ H)));
  rewrite (require_exhausts py config _ _ _ H);
  cbv beta; cbn [value world events].

Ltac list_norm :=
  repeat first
    [ rewrite <- app_assoc
    | rewrite <- app_comm_cons
    | progress cbn [app] ].

(** X11.  The answers to the reset and to the MAC pause are not looked at:
    whatever they are, the sequence waits two seconds and half a second and
    goes on to the bandwidth command through [send_command_with_retry]. *)
Theorem configure_gateway_prelude (w : World) :
  exists rest,
    events (configure_gateway py config w)
    = prelude_events config w
      ++ events (swr (LORA_RADIO_BW_COMMAND config) (at_bw config w))
      ++ rest.
Proof.
  unfold configure_gateway.
  destruct (events_try_prefix
              (configure_sequence py config)
              (except_Exception
                 (fun e => log ERROR (ErrorConfiguringGateway e))) w)
    as (rest1 & E1).
  rewrite E1. clear E1.
  unfold prelude_events, at_bw, at_pause. prelude_steps.
  match goal with
  | |- context [bind ?m ?k ?w'] =>
      destruct (events_bind_prefix m k w') as (rest2 & E2)
  end.
  rewrite E2, events_require. exists (rest2 ++ rest1).
  list_norm. reflexivity.
Qed.

(** X12.  On a port that is not open the sequence writes nothing to the port
    and stops at the bandwidth command: it logs that failure and returns
    with the world as it was. *)
Theorem configure_gateway_port_not_open (w : World) :
  port w <> PortOpen ->
  value (configure_gateway py config w) = Ret tt
  /\ world (configure_gateway py config w) = w
  /\ writes_of (events (configure_gateway py config w)) = []
  /\ exists pre,
      events (configure_gateway py config w)
      = pre ++ [Log ERROR (ErrorConfiguringGateway
                             (PlainException "Failed to set bandwidth."))].
Proof.
  intros Hp.
  destruct (retry_from_port_not_open
              py config (LORA_RADIO_BW_COMMAND config)
              (Z.to_nat (COMMAND_RETRIES config)) 1 w Hp)
    as (Hv & Hw & Hwr & _).
  fold (send_command_with_retry py config (LORA_RADIO_BW_COMMAND config) w)
    in Hv, Hw, Hwr.
  assert (S : forall c, send_command c w
                        = {| value := Ret []; world := w;
                             events := [Call c; Log ERROR SerialNotOpen] |})
    by (intros c; apply send_command_port_not_open; exact Hp).
  assert (E : configure_sequence py config w
              = {| value := Raise (IsException
                                     (PlainException "Failed to set bandwidth."));
                   world := w;
                   events :=
                     [Log INFO ResettingModule;
                      Call (LORA_RESET_COMMAND config); Log ERROR SerialNotOpen;
                      Sleep 2000; Log INFO PausingMac;
                      Call (LORA_MAC_PAUSE_COMMAND config);
                      Log ERROR SerialNotOpen; Sleep 500]
                     ++ events (swr (LORA_RADIO_BW_COMMAND config) w) |}).
  { unfold configure_sequence, log, sleep. run_binds.
    rewrite (bind_Ret _ _ _ [] (f_equal value (S _))), S.
    cbv beta. cbn [value world events]. run_binds.
    rewrite (bind_Ret _ _ _ [] (f_equal value (S _))), S.
    cbv beta. cbn [value world events]. run_binds.
    require_ko Hv. rewrite Hw. list_norm. reflexivity. }
  unfold configure_gateway, try_except. rewrite E. cbn.
  repeat split.
  - rewrite writes_of_app, Hwr. reflexivity.
  - exists ([Log INFO ResettingModule;
             Call (LORA_RESET_COMMAND config); Log ERROR SerialNotOpen;
             Sleep 2000; Log INFO PausingMac;
             Call (LORA_MAC_PAUSE_COMMAND config);
             Log ERROR SerialNotOpen; Sleep 500]
            ++ events (swr (LORA_RADIO_BW_COMMAND config) w)).
    reflexivity.
Qed.

(** X13.  When every command is acknowledged the sequence runs to its end: the
    frequency and the spreading factor are reported as set, the last record
    says that the module is in receive mode, and the call returns. *)
Theorem configure_gateway_all_acknowledged (w : World) :
  all_acknowledged py config w ->
  value (configure_gateway py config w) = Ret tt
  /\ world (configure_gateway py config w)
     = world (swr (LORA_RADIO_RX_COMMAND config) (at_rx py config w))
  /\ In (Log INFO FrequencySet) (events (configure_gateway py config w))
  /\ In (Log INFO SpreadingFactorSet) (events (configure_gateway py config w))
  /\ exists pre,
      events (configure_gateway py config w)
      = pre ++ [Log INFO NowInReceiveMode].
Proof.
  unfold all_acknowledged, succeeds.
  intros (H1 & H2 & H3 & H4 & H5 & H6).
  assert (E : exists e1 e2 e3,
             configure_sequence py config w
             = {| value := Ret tt;
                  world := world (swr (LORA_RADIO_RX_COMMAND config)
                                      (at_rx py config w));
                  events := e1 ++ Log INFO FrequencySet :: e2
                            ++ Log INFO SpreadingFactorSet :: e3
                            ++ [Log INFO NowInReceiveMode] |}).
  { exists (prelude_events config w
            ++ events (swr (LORA_RADIO_BW_COMMAND config) (at_bw config w))
            ++ events (swr (LORA_RADIO_CR_COMMAND config) (at_cr py config w))
            ++ events (swr (LORA_RADIO_PWR_COMMAND config) (at_pwr py config w))
            ++ Log INFO SettingFrequency
            :: events (swr (LORA_RADIO_FREQ_COMMAND config)
                           (at_freq py config w))),
           (Log INFO SettingSpreadingFactor
            :: events (swr (LORA_RADIO_SF_COMMAND config) (at_sf py config w))),
           (Log INFO PuttingIntoReceiveMode
            :: events (swr (LORA_RADIO_RX_COMMAND config) (at_rx py config w))).
    unfold at_rx, at_sf, at_freq, at_pwr, at_cr, at_bw, at_pause,
      prelude_events in *.
    prelude_steps.
    require_ok H1. require_ok H2. require_ok H3.
    run_bind H4. run_bind H5. rewrite (bind_Ret _ _ _ _ H6).
    cbv beta iota. unfold emit. cbn [value world events].
    list_norm. reflexivity. }
  destruct E as (e1 & e2 & e3 & E).
  unfold configure_gateway, try_except. rewrite E. cbn [value world events].
  repeat split.
  - apply in_or_app. right. left. reflexivity.
  - apply in_or_app. right. right. apply in_or_app. right. left. reflexivity.
  - exists (e1 ++ Log INFO FrequencySet :: e2
            ++ Log INFO SpreadingFactorSet :: e3).
    list_norm. reflexivity.
Qed.

End ConfigureFurther.

Lemma configure_gateway_port_not_open_witness :
  writes_of (events (configure_gateway reference_runtime the_config
                       {| port := PortClosed; writes := []; reads := [];
                          polls := []; posts := [] |})) = [].
Proof.
  apply (configure_gateway_port_not_open reference_runtime the_config
           {| port := PortClosed; writes := []; reads := []; polls := [];
              posts := [] |}).
  discriminate.
Defined.

Lemma configure_gateway_all_acknowledged_witness :
  all_acknowledged reference_runtime the_config ok_world
  /\ value (configure_gateway reference_runtime the_config ok_world) = Ret tt.
Proof.
  assert (H : all_acknowledged reference_runtime the_config ok_world).
  { repeat split; vm_compute; reflexivity. }
  split; [exact H|].
  exact (proj1 (configure_gateway_all_acknowledged reference_runtime the_config
                  ok_world H)).
Defined.

(** ** The uploader *)

Section UploaderProperties.

Variable config : Config.

Lemma requests_post_run (url : pystr) (data : UploadPayload) (w : World) :
  world (requests_post url data w) = after_post w
  /\ events (requests_post url data w) = [HttpPost url data].
Proof. split; reflexivity. Qed.

(** The ways an upload can go. *)
Lemma send_post_request_shape (data : UploadPayload) (w : World) :
  exists v tail,
    send_post_request config data w
    = {| value := v; world := after_post w;
         events := HttpPost (POST_URL config) data :: tail |}
    /\ (tail = [] \/ exists lvl m, tail = [Log lvl m])
    /\ (v = Ret tt \/ exists e, v = Raise (IsException e)).
Proof.
  unfold send_post_request, try_except, bind, requests_post, lift, log, emit,
    ret, raise, after_post. cbn.
  destruct (hd (inr RequestException) (posts w)) as [r|e]; cbn.
  - destruct (status_code r =? 200)%Z; cbn.
    + destruct (json r) as [v|e]; cbn; [eauto 10|].
      destruct e; cbn; eauto 10.
    + eauto 10.
  - destruct e; cbn; eauto 10.
Qed.

(** X14.  An upload is one request, never repeated: [send_post_request]
    posts the payload once to the configured address, whatever the endpoint
    answers, and uses up exactly that one answer. *)
Theorem send_post_request_one_request (data : UploadPayload) (w : World) :
  posts_of (events (send_post_request config data w))
  = [(POST_URL config, data)]
  /\ world (send_post_request config data w) = after_post w
  /\ calls_of (events (send_post_request config data w)) = []
  /\ writes_of (events (send_post_request config data w)) = [].
Proof.
  destruct (send_post_request_shape data w) as (v & tail & E & Ht & _).
  rewrite E. cbn.
  destruct Ht as [-> | (lvl & m & ->)]; repeat split.
Qed.

(** X15.  A failed upload is logged and dropped.  A status other than 200 and
    a [RequestException] of the transport each leave one error record and
    the call returns; a 200 answer whose body is not JSON leaves a warning. *)
Theorem send_post_request_failures (data : UploadPayload) (w : World) :
  let run := send_post_request config data w in
  (forall r, hd (inr RequestException) (posts w) = inl r ->
             status_code r <> 200%Z ->
             value run = Ret tt
             /\ events run
                = [HttpPost (POST_URL config) data;
                   Log ERROR (PostFailed (status_code r) (text r))])
  /\ (hd (inr RequestException) (posts w) = inr RequestException ->
      value run = Ret tt
      /\ events run
         = [HttpPost (POST_URL config) data;
            Log ERROR (PostException RequestException)])
  /\ (forall r, hd (inr RequestException) (posts w) = inl r ->
                status_code r = 200%Z -> json r = inr JSONDecodeError ->
                value run = Ret tt
                /\ events run
                   = [HttpPost (POST_URL config) data; Log WARNING PostNotJson]).
Proof.
  intros run. subst run.
  unfold send_post_request, try_except, bind, requests_post, lift, log, emit,
    ret, raise. cbn.
  repeat split.
  - rewrite H. cbn. apply Z.eqb_neq in H0. rewrite H0. reflexivity.
  - rewrite H. cbn. apply Z.eqb_neq in H0. rewrite H0. reflexivity.
  - rewrite H. reflexivity.
  - rewrite H. reflexivity.
  - rewrite H. cbn. rewrite H0, H1. reflexivity.
  - rewrite H. cbn. rewrite H0, H1. reflexivity.
Qed.

End UploaderProperties.

Lemma send_post_request_failures_witness :
  value (send_post_request the_config
           {| sensor_id := 123; gateway_id := str "GATEWAY001";
              data_kwh := JFloat 42.5 |}
           {| port := PortOpen; writes := []; reads := []; polls := [];
              posts := [inl {| status_code := 500; text := str "error";
                               json := inr JSONDecodeError |}] |}) = Ret tt.
Proof.
  apply (proj1 (send_post_request_failures the_config
                  {| sensor_id := 123; gateway_id := str "GATEWAY001";
                     data_kwh := JFloat 42.5 |}
                  {| port := PortOpen; writes := []; reads := []; polls := [];
                     posts := [inl {| status_code := 500; text := str "error";
                                      json := inr JSONDecodeError |}] |})
               {| status_code := 500; text := str "error";
                  json := inr JSONDecodeError |}).
  - reflexivity.
  - discriminate.
Defined.

(** *** Computations that issue no upload *)

Lemma nu_ret {A} (a : A) : no_upload (ret a).
Proof. intros w. reflexivity. Qed.

Lemma nu_raise {A} (x : BaseException) : no_upload (@raise A x).
Proof. intros w. reflexivity. Qed.

Lemma nu_log (lvl : level) (m : logmsg) : no_upload (emit (Log lvl m)).
Proof. intros w. reflexivity. Qed.

Lemma nu_sleep (ms : N) : no_upload (emit (Sleep ms)).
Proof. intros w. reflexivity. Qed.

Lemma nu_bind {A B} (m : M A) (k : A -> M B) :
  no_upload m -> (forall a, no_upload (k a)) -> no_upload (bind m k).
Proof.
  intros Hm Hk w. destruct (bind_cases m k w) as [(a & _ & E) | (x & _ & E)];
    rewrite E; cbn [events].
  - rewrite posts_of_app, Hm, Hk. reflexivity.
  - apply Hm.
Qed.

Lemma nu_try {A} (m : M A) (h : BaseException -> option (M A)) :
  no_upload m -> (forall x k, h x = Some k -> no_upload k) ->
  no_upload (try_except m h).
Proof.
  intros Hm Hh w. unfold try_except.
  destruct (value (m w)) as [a|x]; [apply Hm|].
  destruct (h x) as [k|] eqn:Ek; [|apply Hm].
  cbn [events]. rewrite posts_of_app, Hm, (Hh x k Ek). reflexivity.
Qed.

Lemma nu_if {A} (b : bool) (m1 m2 : M A) :
  no_upload m1 -> no_upload m2 -> no_upload (if b then m1 else m2).
Proof. destruct b; auto. Qed.

Lemma nu_send_command (command : pystr) : no_upload (send_command command).
Proof.
  intros w. destruct (port w) eqn:Hp;
    try (rewrite (send_command_port_not_open command w) by congruence;
         reflexivity).
  destruct (send_command_open command w Hp)
    as [(_ & _ & He) | [(_ & _ & _ & He) | [(raw & _ & _ & _ & _ & He)
       | (raw & s & _ & _ & _ & _ & He)]]];
    rewrite He; reflexivity.
Qed.

Ltac nu_solve :=
  repeat first
    [ apply nu_ret | apply nu_raise | apply nu_log | apply nu_sleep
    | apply nu_send_command
    | apply nu_bind; [|intros ?]
    | apply nu_if ].

Section NoUpload.

Variable py : PyRuntime.
Variable config : Config.

Lemma nu_retry_from (command : pystr) (n : nat) :
  forall a, no_upload (retry_from py config command n a).
Proof.
  induction n as [|n IH]; intros a; cbn [retry_from]; unfold log, sleep.
  - nu_solve.
  - apply nu_bind; [apply nu_send_command|]. intros r.
    apply nu_if; [nu_solve|].
    apply nu_bind; [apply nu_log|]. intros _.
    apply nu_bind; [apply nu_sleep|]. intros _. apply IH.
Qed.

Lemma nu_send_command_with_retry (command : pystr) :
  no_upload (send_command_with_retry py config command).
Proof. apply nu_retry_from. Qed.

(** The configuration sequence never uploads anything. *)
Lemma nu_configure_gateway : no_upload (configure_gateway py config).
Proof.
  unfold configure_gateway. apply nu_try.
  - unfold configure_sequence, require, log, sleep.
    repeat first [ apply nu_send_command_with_retry | progress nu_solve ].
  - intros [|e] k H; [discriminate|]. inversion H; subst. apply nu_log.
Qed.

(** X10.  [configure_gateway] always returns to its caller: the failure of a
    prerequisite command is caught and logged, nothing else raises; and it
    never issues an upload. *)
Theorem configure_gateway_returns (w : World) :
  value (configure_gateway py config w) = Ret tt
  /\ posts_of (events (configure_gateway py config w)) = [].
Proof.
  split.
  - apply configure_gateway_value.
  - apply nu_configure_gateway.
Qed.

End NoUpload.

(** ** Message processing, further *)

Lemma hex_to_string_run (hex_str : pystr) (w : World) :
  hex_to_string hex_str w
  = {| value := Ret (decoded_text hex_str); world := w;
       events := decoding_events hex_str |}.
Proof.
  unfold hex_to_string, decoded_text, decoding_events.
  destruct (bytes_fromhex hex_str); reflexivity.
Qed.

Lemma decoding_events_quiet (hex_str : pystr) :
  calls_of (decoding_events hex_str) = []
  /\ writes_of (decoding_events hex_str) = []
  /\ posts_of (decoding_events hex_str) = [].
Proof.
  unfold decoding_events. destruct (bytes_fromhex hex_str); repeat split.
Qed.

(** The prefixes exclude one another where the source relies on it. *)
Lemma radio_err_not_radio_rx (message : pystr) :
  startswith message (str "radio_err") = true ->
  startswith message (str "radio_rx") = false.
Proof.
  change (str "radio_err") with [114; 97; 100; 105; 111; 95; 101; 114; 114].
  change (str "radio_rx") with [114; 97; 100; 105; 111; 95; 114; 120].
  destruct message as [|c1 [|c2 [|c3 [|c4 [|c5 [|c6 [|c7 m]]]]]]];
    cbn [startswith]; try reflexivity;
    try (rewrite ?andb_false_r; discriminate).
  intros H.
  repeat (apply andb_prop in H; destruct H as [? H]).
  repeat match goal with
         | E : (_ =? _) = true |- _ => apply N.eqb_eq in E; subst
         end.
  reflexivity.
Qed.

Lemma ok_not_radio (message : pystr) :
  startswith message (str "ok") = true ->
  startswith message (str "radio_rx") = false
  /\ startswith message (str "radio_err") = false.
Proof.
  change (str "ok") with [111; 107].
  change (str "radio_err") with [114; 97; 100; 105; 111; 95; 101; 114; 114].
  change (str "radio_rx") with [114; 97; 100; 105; 111; 95; 114; 120].
  destruct message as [|c1 m]; cbn [startswith]; [discriminate|].
  intros H. apply andb_prop in H. destruct H as [H _].
  apply N.eqb_eq in H. subst c1. split; reflexivity.
Qed.

Section ProcessingFurther.

Variable py : PyRuntime.
Variable config : Config.

#[local] Abbreviation process := (process_received_message py config).

Lemma process_radio_err (message : pystr) (w : World) :
  startswith message (str "radio_err") = true ->
  process message w
  = {| value := Ret tt;
       world := world (configure_gateway py config w);
       events := Log ERROR (ReceiveError message)
                 :: Log INFO AttemptingReconfigure
                 :: events (configure_gateway py config w) |}.
Proof.
  intros H. unfold process_received_message.
  rewrite (radio_err_not_radio_rx message H), H. unfold log. run_binds.
  rewrite (configure_gateway_value py config w). reflexivity.
Qed.

(** X16.  A [radio_err] message triggers exactly one run of the
    configuration sequence, after two log records, and nothing else: no
    upload is made and the call returns in the world that the sequence
    leaves. *)
Theorem radio_err_reconfigures (message : pystr) (w : World) :
  startswith message (str "radio_err") = true ->
  process message w
  = {| value := Ret tt;
       world := world (configure_gateway py config w);
       events := Log ERROR (ReceiveError message)
                 :: Log INFO AttemptingReconfigure
                 :: events (configure_gateway py config w) |}
  /\ posts_of (events (process message w)) = [].
Proof.
  intros H. rewrite (process_radio_err message w H). split; [reflexivity|].
  cbn [events posts_of]. apply nu_configure_gateway.
Qed.

(** X17.  A [radio_rx] message with no second token is logged as an error and
    dropped: nothing is decoded, uploaded or sent. *)
Theorem radio_rx_without_payload (message : pystr) (w : World) :
  startswith message (str "radio_rx") = true ->
  (List.length (split message) < 2)%nat ->
  process message w
  = {| value := Ret tt; world := w;
       events := [Log ERROR (UnexpectedRadioRxFormat message)] |}.
Proof.
  intros H Hl. unfold process_received_message. rewrite H.
  destruct (split message) as [|first [|hex_data rest]];
    [reflexivity | reflexivity | simpl in Hl; lia].
Qed.

(** X18.  An acknowledgment that arrives on its own, and a line with none of
    the known prefixes, leave one log record and change nothing. *)
Theorem unmatched_lines_only_logged (message : pystr) (w : World) :
  (startswith message (str "ok") = true ->
   process message w
   = {| value := Ret tt; world := w;
        events := [Log DEBUG (ReceivedAcknowledgment message)] |})
  /\ (startswith message (str "radio_rx") = false ->
      startswith message (str "radio_err") = false ->
      startswith message (str "ok") = false ->
      process message w
      = {| value := Ret tt; world := w;
           events := [Log WARNING (UnexpectedResponse message)] |}).
Proof.
  unfold process_received_message. split.
  - intros H. destruct (ok_not_radio message H) as [H1 H2].
    rewrite H1, H2, H. reflexivity.
  - intros H1 H2 H3. rewrite H1, H2, H3. reflexivity.
Qed.

(** The [radio_rx] branch from the decoding on. *)
Lemma radio_rx_run (message first hex_data : pystr) (rest : list pystr)
      (w : World) :
  startswith message (str "radio_rx") = true ->
  split message = first :: hex_data :: rest ->
  let text := decoded_text hex_data in
  let handled :=
    try_except
      (parse_and_upload py config text)
      (fun x =>
         match x with
         | IsException JSONDecodeError =>
             Some (log ERROR (FailedToDecodeJson text))
         | IsException _ => Some (ret tt)
         | KeyboardInterrupt => None
         end) w in
  process message w
  = {| value := value handled; world := world handled;
       events := decoding_events hex_data
                 ++ Log DEBUG (ReceivedPacket text) :: events handled |}.
Proof.
  intros H Hs text handled. unfold process_received_message.
  rewrite H, Hs.
  rewrite (bind_Ret _ _ _ _ (f_equal value (hex_to_string_run hex_data w))).
  rewrite hex_to_string_run. cbv beta. cbn [value world events].
  unfold log. run_binds. reflexivity.
Qed.

(** X19.  When the decoded payload is not JSON the message is dropped with an
    error record: no upload is made, nothing is sent to the radio and the
    world stays as it was. *)
Theorem radio_rx_invalid_json (message first hex_data : pystr)
        (rest : list pystr) (w : World) :
  startswith message (str "radio_rx") = true ->
  split message = first :: hex_data :: rest ->
  json_loads py (decoded_text hex_data) = inr JSONDecodeError ->
  process message w
  = {| value := Ret tt; world := w;
       events := decoding_events hex_data
                 ++ [Log DEBUG (ReceivedPacket (decoded_text hex_data));
                     Log ERROR (FailedToDecodeJson (decoded_text hex_data))] |}.
Proof.
  intros H Hs Hj. rewrite (radio_rx_run message first hex_data rest w H Hs).
  unfold try_except, parse_and_upload. rewrite Hj. reflexivity.
Qed.

End ProcessingFurther.

Lemma radio_err_reconfigures_witness :
  value (process_received_message reference_runtime the_config
           (str "radio_err") quiet_world) = Ret tt.
Proof.
  rewrite (proj1 (radio_err_reconfigures reference_runtime the_config
                    (str "radio_err") quiet_world eq_refl)).
  reflexivity.
Defined.

Lemma radio_rx_without_payload_witness :
  process_received_message reference_runtime the_config (str "radio_rx ")
    quiet_world
  = {| value := Ret tt; world := quiet_world;
       events := [Log ERROR (UnexpectedRadioRxFormat (str "radio_rx "))] |}.
Proof.
  apply (radio_rx_without_payload reference_runtime the_config
           (str "radio_rx ") quiet_world).
  - reflexivity.
  - vm_compute. lia.
Defined.

Lemma unmatched_lines_only_logged_witness :
  process_received_message reference_runtime the_config (str "ok") ok_world
  = {| value := Ret tt; world := ok_world;
       events := [Log DEBUG (ReceivedAcknowledgment (str "ok"))] |}
  /\ process_received_message reference_runtime the_config
       (str "busy") ok_world
     = {| value := Ret tt; world := ok_world;
          events := [Log WARNING (UnexpectedResponse (str "busy"))] |}.
Proof.
  split.
  - apply (proj1 (unmatched_lines_only_logged reference_runtime the_config
                    (str "ok") ok_world)). reflexivity.
  - apply (proj2 (unmatched_lines_only_logged reference_runtime the_config
                    (str "busy") ok_world)); reflexivity.
Defined.

Lemma radio_rx_invalid_json_witness :
  process_received_message reference_runtime the_config
    (str "radio_rx 48656C6C6F") quiet_world
  = {| value := Ret tt; world := quiet_world;
       events := [Log DEBUG (ReceivedPacket (str "Hello"));
                  Log ERROR (FailedToDecodeJson (str "Hello"))] |}.
Proof.
  apply (radio_rx_invalid_json reference_runtime the_config
           (str "radio_rx 48656C6C6F") (str "radio_rx") (str "48656C6C6F") []
           quiet_world); vm_compute; reflexivity.
Defined.

Ltac obs_norm :=
  repeat (rewrite ?calls_of_app, ?writes_of_app, ?posts_of_app;
          progress cbn [calls_of writes_of posts_of]).

Section UploadCount.

Variable py : PyRuntime.
Variable config : Config.

#[local] Abbreviation process := (process_received_message py config).

(** The [try] body of the [radio_rx] branch on a text that [json.loads]
    turns into a dictionary. *)
Lemma parse_and_upload_dict (text : pystr) (items : list (pystr * JValue))
      (w : World) :
  json_loads py text = inl (JDict items) ->
  let post_data :=
    {| sensor_id := SENSOR_ID config; gateway_id := GATEWAY_ID config;
       data_kwh := dict_get items (str "TotalActivePower") (JFloat 0%float) |} in
  parse_and_upload py config text w
  = {| value := value (send_post_request config post_data w);
       world := world (send_post_request config post_data w);
       events :=
         Log INFO ParsedJsonData
         :: map (fun kv => Log INFO (JsonField (fst kv) (snd kv))) items
         ++ events (send_post_request config post_data w) |}.
Proof.
  intros H post_data. unfold parse_and_upload. rewrite H.
  unfold lift, data_items, log. rewrite bind_ret_l. run_binds.
  rewrite bind_ret_l. cbn [value world events].
  rewrite (bind_Ret _ _ _ _ (f_equal value (log_fields_run items w))).
  rewrite log_fields_run. reflexivity.
Qed.

Lemma quiet_map_fields (items : list (pystr * JValue)) :
  let evs := map (fun kv => Log INFO (JsonField (fst kv) (snd kv))) items in
  posts_of evs = [] /\ calls_of evs = [] /\ writes_of evs = [].
Proof.
  induction items as [|kv items IH]; simpl; [repeat split|exact IH].
Qed.

(** What the [try] of the [radio_rx] branch does with its handlers: it
    returns, sends nothing to the radio, and uploads at most once. *)
Lemma radio_rx_handled (text : pystr) (w : World) :
  let handled :=
    try_except
      (parse_and_upload py config text)
      (fun x =>
         match x with
         | IsException JSONDecodeError =>
             Some (log ERROR (FailedToDecodeJson text))
         | IsException _ => Some (ret tt)
         | KeyboardInterrupt => None
         end) w in
  value handled = Ret tt
  /\ calls_of (events handled) = []
  /\ writes_of (events handled) = []
  /\ ((world handled = w /\ posts_of (events handled) = [])
      \/ (world handled = after_post w
          /\ exists data, posts_of (events handled) = [(POST_URL config, data)])).
Proof.
  intros handled. subst handled.
  destruct (json_loads py text) as [data|e] eqn:Hj.
  - destruct data;
      try (unfold try_except, parse_and_upload; rewrite Hj;
           cbn; repeat split; left; split; reflexivity).
    pose proof (parse_and_upload_dict text items w Hj) as E. cbv zeta in E.
    set (post_data := {| sensor_id := SENSOR_ID config;
                         gateway_id := GATEWAY_ID config;
                         data_kwh := dict_get items (str "TotalActivePower")
                                              (JFloat 0%float) |}) in *.
    destruct (send_post_request_shape config post_data w)
      as (v & tail & Es & Ht & Hv).
    rewrite Es in E. cbn [value world events] in E.
    destruct (quiet_map_fields items) as (Q1 & Q2 & Q3). cbv zeta in Q1, Q2, Q3.
    assert (T : posts_of tail = [] /\ calls_of tail = [] /\ writes_of tail = [])
      by (destruct Ht as [-> | (lvl & m & ->)]; repeat split).
    destruct T as (T1 & T2 & T3).
    destruct Hv as [-> | [e ->]]; unfold try_except; rewrite E;
      cbn [value world events].
    + obs_norm. rewrite Q1, Q2, Q3, T1, T2, T3. cbn [app].
      repeat split. right. split; [reflexivity|]. exists post_data. reflexivity.
    + assert (Hh : exists tail',
                 (match e with
                  | JSONDecodeError =>
                      Some (log ERROR (FailedToDecodeJson text))
                  | _ => Some (ret tt)
                  end)
                 = Some (fun w' => {| value := Ret tt; world := w';
                                      events := tail' |})
                 /\ posts_of tail' = [] /\ calls_of tail' = []
                 /\ writes_of tail' = []).
      { destruct e; eexists; (split; [reflexivity|repeat split]). }
      destruct Hh as (tail' & Hh & P1 & P2 & P3). rewrite Hh.
      cbn [value world events]. obs_norm.
      rewrite Q1, Q2, Q3, T1, T2, T3, P1, P2, P3. cbn [app].
      repeat split. right. split; [reflexivity|]. exists post_data. reflexivity.
  - unfold try_except, parse_and_upload. rewrite Hj.
    destruct e; cbn; repeat split; left; split; reflexivity.
Qed.

End UploadCount.

Section UploadTheorems.

Variable py : PyRuntime.
Variable config : Config.

#[local] Abbreviation process := (process_received_message py config).

(** X20.  A message leads to at most one upload, and to none unless it is a
    [radio_rx] message. *)
Theorem uploads_at_most_once (message : pystr) (w : World) :
  (List.length (posts_of (events (process message w))) <= 1)%nat
  /\ (startswith message (str "radio_rx") = false ->
      posts_of (events (process message w)) = []).
Proof.
  destruct (startswith message (str "radio_rx")) eqn:Hrx.
  - split; [|discriminate].
    destruct (split message) as [|first [|hex_data rest]] eqn:Hs;
      try (unfold process_received_message; rewrite Hrx, Hs; cbn; lia).
    rewrite (radio_rx_run py config message first hex_data rest w Hrx Hs).
    cbn [events]. rewrite posts_of_app.
    destruct (decoding_events_quiet hex_data) as (_ & _ & ->).
    cbn [app posts_of].
    destruct (radio_rx_handled py config (decoded_text hex_data) w)
      as (_ & _ & _ & [[_ ->] | [_ [data ->]]]); simpl; lia.
  - assert (E : posts_of (events (process message w)) = []).
    { destruct (startswith message (str "radio_err")) eqn:Herr.
      - rewrite (process_radio_err py config message w Herr).
        cbn [events posts_of]. apply nu_configure_gateway.
      - unfold process_received_message. rewrite Hrx, Herr.
        destruct (startswith message (str "ok")); reflexivity. }
    rewrite E. split; [simpl; lia | reflexivity].
Qed.

(** X21.  Only a [radio_err] message makes the processor talk to the radio:
    for every other message no command is sent and nothing is written to the
    port, and of the world at most one answer of the endpoint is used up. *)
Theorem radio_left_alone (message : pystr) (w : World) :
  startswith message (str "radio_rx") = true
  \/ startswith message (str "radio_err") = false ->
  calls_of (events (process message w)) = []
  /\ writes_of (events (process message w)) = []
  /\ (world (process message w) = w \/ world (process message w) = after_post w).
Proof.
  intros H.
  destruct (startswith message (str "radio_rx")) eqn:Hrx.
  - destruct (split message) as [|first [|hex_data rest]] eqn:Hs;
      try (unfold process_received_message; rewrite Hrx, Hs; cbn;
           solve [auto]).
    rewrite (radio_rx_run py config message first hex_data rest w Hrx Hs).
    cbn [events world]. rewrite calls_of_app, writes_of_app.
    destruct (decoding_events_quiet hex_data) as (-> & -> & _).
    cbn [app calls_of writes_of].
    destruct (radio_rx_handled py config (decoded_text hex_data) w)
      as (_ & -> & -> & [[-> _] | [-> _]]); auto.
  - destruct H as [H|Herr]; [discriminate|].
    unfold process_received_message. rewrite Hrx, Herr.
    destruct (startswith message (str "ok")); cbn; auto.
Qed.

End UploadTheorems.

Lemma radio_left_alone_witness :
  calls_of (events (process_received_message reference_runtime the_config
                      (str "radio_rx 7B7D") quiet_world)) = []
  /\ posts_of (events (process_received_message reference_runtime the_config
                         (str "radio_rx 7B7D") quiet_world))
     = [(POST_URL the_config,
         {| sensor_id := 123; gateway_id := str "GATEWAY001";
            data_kwh := JFloat 0 |})].
Proof.
  split.
  - apply (radio_left_alone reference_runtime the_config
             (str "radio_rx 7B7D") quiet_world).
    left. reflexivity.
  - vm_compute. reflexivity.
Defined.

Lemma uploads_at_most_once_witness :
  posts_of (events (process_received_message reference_runtime the_config
                      (str "radio_err") ok_world)) = [].
Proof.
  apply (uploads_at_most_once reference_runtime the_config
           (str "radio_err") ok_world).
  reflexivity.
Defined.

(** ** The receive loop *)

Lemma ser_in_waiting_open (w : World) :
  port w = PortOpen ->
  ser_in_waiting w
  = {| value := match hd (Waiting 0) (polls w) with
                | Waiting n => Ret n
                | PollRaises e => Raise (IsException e)
                | PollInterrupted => Raise KeyboardInterrupt
                end;
       world := after_poll w; events := [] |}.
Proof.
  intros H. unfold ser_in_waiting, after_poll.
  destruct (port w); try discriminate. reflexivity.
Qed.

Section ListeningProperties.

Variable py : PyRuntime.
Variable config : Config.

#[local] Abbreviation pass := (listen_pass py config).
#[local] Abbreviation listen := (listen_for_messages py config).

(** While nothing is waiting a pass of the loop does nothing but sleep
    100 ms: no line is read and nothing is sent. *)
Lemma listen_pass_idle (w : World) :
  port w = PortOpen ->
  hd (Waiting 0) (polls w) = Waiting 0 ->
  pass w = {| value := Ret tt; world := after_poll w; events := [Sleep 100] |}.
Proof.
  intros Hp Hq. unfold listen_pass.
  assert (E : ser_in_waiting w
              = {| value := Ret 0; world := after_poll w; events := [] |})
    by (rewrite (ser_in_waiting_open w Hp), Hq; reflexivity).
  rewrite (bind_Ret _ _ _ _ (f_equal value E)), E. reflexivity.
Qed.

(** X22.  A line that is empty once decoded and stripped is read and
    ignored: it is not processed and the receive command is not re-issued. *)
Theorem listen_pass_blank_line (w : World) (n : N) (raw : pybytes) :
  port w = PortOpen ->
  hd (Waiting 0) (polls w) = Waiting n -> 0 < n ->
  hd (Some []) (reads w) = Some raw ->
  strip (decode_utf8_ignore raw) = [] ->
  pass w = {| value := Ret tt; world := after_poll_and_read w;
              events := [Sleep 100] |}.
Proof.
  intros Hp Hq Hn Hr Hs. unfold listen_pass.
  assert (E : ser_in_waiting w
              = {| value := Ret n; world := after_poll w; events := [] |})
    by (rewrite (ser_in_waiting_open w Hp), Hq; reflexivity).
  rewrite (bind_Ret _ _ _ _ (f_equal value E)), E.
  cbv beta. cbn [value world events].
  apply N.ltb_lt in Hn. rewrite Hn. cbv iota.
  assert (E2 : ser_readline (after_poll w)
               = {| value := Ret raw; world := after_poll_and_read w;
                    events := [] |}).
  { unfold ser_readline, after_poll, after_poll_and_read. cbn. rewrite Hr.
    reflexivity. }
  match goal with
  | |- context [bind (bind ser_readline ?k2) _ ?w'] =>
      assert (Ein : bind ser_readline k2 w'
                    = {| value := Ret tt; world := after_poll_and_read w;
                         events := [] |})
  end.
  { rewrite (bind_Ret _ _ _ _ (f_equal value E2)), E2.
    cbv beta. cbn [value world events]. rewrite Hs. reflexivity. }
  rewrite (bind_Ret _ _ _ _ (f_equal value Ein)), Ein. reflexivity.
Qed.

(** A pass in which the poll of the port raises. *)
Lemma listen_pass_poll_raises (w : World) (x : BaseException) :
  value (ser_in_waiting w) = Raise x ->
  pass w = {| value := Raise x; world := world (ser_in_waiting w);
              events := events (ser_in_waiting w) |}.
Proof. intros H. unfold listen_pass. apply bind_Raise. exact H. Qed.

Lemma listen_stops (passes : nat) (w : World) (x : BaseException) :
  value (pass w) = Raise x ->
  listen (S passes) w
  = {| value := Ret Returned; world := world (pass w);
       events := Log INFO Listening
                 :: events (pass w)
                 ++ [match x with
                     | KeyboardInterrupt => Log INFO StoppingReceiver
                     | IsException e => Log ERROR (ErrorWhileListening e)
                     end] |}.
Proof.
  intros H. unfold listen_for_messages, log. rewrite bind_emit.
  cbn [listen_loop].
  destruct x as [|e];
    (erewrite try_except_Raise;
     [ | rewrite (bind_Raise _ _ _ _ H); reflexivity | reflexivity ]);
    rewrite (bind_Raise _ _ _ _ H); reflexivity.
Qed.


Lemma after_poll_idle (w : World) :
  port w = PortOpen ->
  Forall (fun p => p = Waiting 0) (polls w) ->
  port (after_poll w) = PortOpen
  /\ Forall (fun p => p = Waiting 0) (polls (after_poll w))
  /\ hd (Waiting 0) (polls w) = Waiting 0.
Proof.
  intros Hp Hf. unfold after_poll. cbn. repeat split; [exact Hp| |].
  - destruct (polls w); [constructor|]. inversion Hf; assumption.
  - destruct (polls w); [reflexivity|]. inversion Hf; assumption.
Qed.

Lemma listen_loop_idle (passes : nat) :
  forall w,
    port w = PortOpen ->
    Forall (fun p => p = Waiting 0) (polls w) ->
    listen_loop py config passes w
    = {| value := Ret StillListening;
         world := Nat.iter passes after_poll w;
         events := repeat (Sleep 100) passes |}.
Proof.
  induction passes as [|passes IH]; intros w Hp Hf; [reflexivity|].
  destruct (after_poll_idle w Hp Hf) as (Hp' & Hf' & Hq).
  cbn [listen_loop].
  rewrite (bind_Ret _ _ _ _ (f_equal value (listen_pass_idle w Hp Hq))).
  rewrite (listen_pass_idle w Hp Hq). cbv beta. cbn [value world events].
  rewrite (IH (after_poll w) Hp' Hf'). cbn [value world events].
  rewrite Nat.iter_succ_r. reflexivity.
Qed.

(** X24.  On an open port where nothing ever waits the loop keeps polling:
    after any number of passes it is still listening, has slept 100 ms per
    pass, has read no line and has sent nothing. *)
Theorem listen_for_messages_idle (passes : nat) (w : World) :
  port w = PortOpen ->
  Forall (fun p => p = Waiting 0) (polls w) ->
  listen passes w
  = {| value := Ret StillListening;
       world := Nat.iter passes after_poll w;
       events := Log INFO Listening :: repeat (Sleep 100) passes |}.
Proof.
  intros Hp Hf. unfold listen_for_messages, log. rewrite bind_emit.
  rewrite try_except_Ret with (a := StillListening);
    rewrite (listen_loop_idle passes w Hp Hf); reflexivity.
Qed.

End ListeningProperties.

Lemma listen_pass_blank_line_witness :
  listen_pass reference_runtime the_config
    {| port := PortOpen; writes := []; reads := [Some [13; 10]];
       polls := [Waiting 2]; posts := [] |}
  = {| value := Ret tt;
       world := {| port := PortOpen; writes := []; reads := []; polls := [];
                   posts := [] |};
       events := [Sleep 100] |}.
Proof.
  apply (listen_pass_blank_line reference_runtime the_config
           {| port := PortOpen; writes := []; reads := [Some [13; 10]];
              polls := [Waiting 2]; posts := [] |} 2 [13; 10]);
    try reflexivity.
Defined.


Lemma listen_for_messages_idle_witness :
  value (listen_for_messages reference_runtime the_config 10 quiet_world)
  = Ret StillListening.
Proof.
  rewrite (listen_for_messages_idle reference_runtime the_config 10
             quiet_world); [reflexivity | reflexivity | constructor].
Defined.

(** ** Codec, further *)

Lemma hex_upper_from_digits (fuel : nat) :
  forall n acc,
    Forall (fun h => 48 <= h <= 57 \/ 65 <= h <= 70) acc ->
    Forall (fun h => 48 <= h <= 57 \/ 65 <= h <= 70) (hex_upper_from fuel n acc).
Proof.
  induction fuel as [|fuel IH]; intros n acc H; simpl; [exact H|].
  assert (D : Forall (fun h => 48 <= h <= 57 \/ 65 <= h <= 70)
                     (hex_digit (n mod 16) :: acc)).
  { constructor; [|exact H]. apply hex_digit_upper. apply N.mod_lt. lia. }
  destruct (n / 16 =? 0); [exact D|]. apply IH. exact D.
Qed.

Lemma format_02X_shape (n : N) :
  Forall (fun h => 48 <= h <= 57 \/ 65 <= h <= 70) (format_02X n)
  /\ (2 <= List.length (format_02X n))%nat.
Proof.
  unfold format_02X. split.
  - apply Forall_app. split.
    + apply Forall_forall. intros x Hx. apply repeat_spec in Hx. subst x. lia.
    + apply hex_upper_from_digits. constructor.
  - rewrite length_app, repeat_length. lia.
Qed.

(** X1.  For every string, whatever its characters, [string_to_hex] writes
    only the digits 0-9 and A-F, and at least two of them per character. *)
Theorem string_to_hex_digits (s : pystr) :
  Forall (fun h => 48 <= h <= 57 \/ 65 <= h <= 70) (string_to_hex s)
  /\ (2 * List.length s <= List.length (string_to_hex s))%nat.
Proof.
  unfold string_to_hex. induction s as [|c s [IH1 IH2]]; simpl.
  - split; [constructor | lia].
  - destruct (format_02X_shape c) as [F L]. split.
    + apply Forall_app. split; assumption.
    + rewrite length_app. lia.
Qed.

Lemma lone_high_byte (c : N) : 128 <= c -> decode_utf8_ignore [c] = [].
Proof.
  intros H. unfold decode_utf8_ignore, utf8_scan.
  destruct (N.ltb_spec c 128); [lia|].
  destruct (c <? 194); [reflexivity|].
  destruct (c <? 224); [reflexivity|].
  destruct (c <? 240); [reflexivity|].
  destruct (c <? 245); reflexivity.
Qed.

(** X2.  The hexadecimal form of a string of code points below 256 is always
    accepted by [hex_to_string], without an error record, and is read back as
    UTF-8: the result is the original string when all its code points are
    below 128, control characters included, whereas a single character
    between 128 and 255 comes back as the empty string. *)
Theorem hex_roundtrip_latin1 (s : pystr) (w : World) :
  Forall (fun c => c < 256) s ->
  hex_to_string (string_to_hex s) w = ret (decode_utf8_ignore s) w
  /\ (Forall (fun c => c < 128) s ->
      hex_to_string (string_to_hex s) w = ret s w)
  /\ (forall c, s = [c] -> 128 <= c ->
                hex_to_string (string_to_hex s) w = ret [] w).
Proof.
  intros H.
  assert (E : hex_to_string (string_to_hex s) w = ret (decode_utf8_ignore s) w).
  { unfold hex_to_string. rewrite (bytes_fromhex_string_to_hex s H).
    reflexivity. }
  split; [exact E|]. split.
  - intros Ha. rewrite E, (decode_utf8_ignore_ascii s Ha). reflexivity.
  - intros c -> Hc. rewrite E, (lone_high_byte c Hc). reflexivity.
Qed.

Lemma hex_roundtrip_latin1_witness :
  hex_to_string (string_to_hex [233]) quiet_world = ret [] quiet_world.
Proof.
  assert (H : Forall (fun c => c < 256) [233]) by (repeat constructor).
  apply (proj2 (proj2 (hex_roundtrip_latin1 [233] quiet_world H)) 233).
  - reflexivity.
  - lia.
Defined.

Lemma Py_ISSPACE_lower (c : N) : Py_ISSPACE (ascii_lower c) = Py_ISSPACE c.
Proof.
  unfold Py_ISSPACE, ascii_lower.
  destruct (N.leb_spec 65 c), (N.leb_spec c 90); cbn [andb];
    repeat match goal with
           | |- context [?a <=? ?b] => destruct (N.leb_spec a b); cbn [andb]
           | |- context [?a =? ?b] => destruct (N.eqb_spec a b); cbn [orb]
           end;
    try reflexivity; lia.
Qed.

Lemma hex_value_lower (c : N) : hex_value (ascii_lower c) = hex_value c.
Proof.
  unfold hex_value, ascii_lower.
  destruct (N.leb_spec 65 c), (N.leb_spec c 90); cbn [andb];
    repeat match goal with
           | |- context [?a <=? ?b] => destruct (N.leb_spec a b); cbn [andb]
           end;
    try reflexivity; try lia; f_equal; lia.
Qed.

Lemma bytes_fromhex_lower (n : nat) :
  forall s, (List.length s <= n)%nat ->
            bytes_fromhex (map ascii_lower s) = bytes_fromhex s.
Proof.
  induction n as [|n IH]; intros s Hn.
  - destruct s; [reflexivity | simpl in Hn; lia].
  - destruct s as [|c s]; [reflexivity|]. simpl in Hn.
    cbn [map bytes_fromhex]. rewrite Py_ISSPACE_lower, hex_value_lower.
    destruct (Py_ISSPACE c); [apply IH; lia|].
    destruct (hex_value c); [|reflexivity].
    destruct s as [|d s]; [reflexivity|]. simpl in Hn.
    cbn [map]. rewrite hex_value_lower.
    destruct (hex_value d); [|reflexivity].
    rewrite IH by lia. reflexivity.
Qed.

(** X3.  The case of the hexadecimal digits does not matter: a payload and
    its lower-case form decode to the same text. *)
Theorem hex_to_string_case (hex_str : pystr) (w : World) :
  value (hex_to_string (map ascii_lower hex_str) w)
  = value (hex_to_string hex_str w).
Proof.
  unfold hex_to_string.
  rewrite (bytes_fromhex_lower (List.length hex_str) hex_str (le_n _)).
  destruct (bytes_fromhex hex_str); reflexivity.
Qed.

(** ** The session *)

Lemma session_bind_Ret {A B} (m : Session A) (k : A -> Session B)
      (w : World) (a : A) :
  outcome (m w) = Ret a ->
  session_bind m k w
  = {| outcome := outcome (k a (final (m w)));
       final := final (k a (final (m w)));
       trace := trace (m w) ++ trace (k a (final (m w))) |}.
Proof. intros H. unfold session_bind. rewrite H. reflexivity. Qed.

Lemma session_bind_Raise {A B} (m : Session A) (k : A -> Session B)
      (w : World) (x : BaseException) :
  outcome (m w) = Raise x ->
  session_bind m k w
  = {| outcome := Raise x; final := final (m w); trace := trace (m w) |}.
Proof. intros H. unfold session_bind. rewrite H. reflexivity. Qed.

Lemma session_bind_log {B} (lvl : level) (m : session_msg)
      (k : unit -> Session B) (w : World) :
  session_bind (session_log lvl m) k w
  = {| outcome := outcome (k tt w); final := final (k tt w);
       trace := SessionLog lvl m :: trace (k tt w) |}.
Proof. reflexivity. Qed.

Lemma session_bind_set_port {B} (p : PortState) (k : unit -> Session B)
      (w : World) :
  session_bind (set_port p) k w
  = {| outcome := outcome (k tt (final (set_port p w)));
       final := final (k tt (final (set_port p w)));
       trace := trace (k tt (final (set_port p w))) |}.
Proof. reflexivity. Qed.

Section SessionProperties.

Variable py : PyRuntime.
Variable config : Config.
Variable session_config : SessionConfig.

Lemma close_connection_not_open (w : World) :
  port (final (close_connection w)) <> PortOpen.
Proof.
  unfold close_connection. destruct (port w) eqn:Hp; cbn; rewrite ?Hp;
    discriminate.
Qed.

(** X25.  Closing is safe at any time and idempotent.  An open port is closed
    and the closure logged; with no port or a closed one nothing happens; and
    a second call after a first one changes nothing and logs nothing. *)
Theorem close_connection_idempotent (w : World) :
  outcome (close_connection w) = Ret tt
  /\ port (final (close_connection w)) <> PortOpen
  /\ (port w <> PortOpen ->
      close_connection w = {| outcome := Ret tt; final := w; trace := [] |})
  /\ close_connection (final (close_connection w))
     = {| outcome := Ret tt; final := final (close_connection w);
          trace := [] |}.
Proof.
  unfold close_connection.
  destruct (port w) eqn:Hp; cbn; rewrite ?Hp; repeat split;
    try discriminate; try congruence.
Qed.

(** When the port cannot be opened [open_connection] logs the failure and
    raises the [SerialException] again; the port stays as it was. *)
Lemma open_connection_failure (w : World) :
  open_connection session_config false w
  = {| outcome := Raise (IsException SerialException); final := w;
       trace := [SessionLog ERROR
                   (FailedToOpenSerialPort (SERIAL_PORT session_config)
                                           SerialException)] |}.
Proof. reflexivity. Qed.

(** X26.  [get_system_version] never raises.  It sends the version command
    once and reports the version when the response is not empty; in every
    other case (no open port, a failed exchange, an empty line) it warns that
    no response was received. *)
Theorem get_system_version_reports (w : World) :
  let run := get_system_version session_config w in
  let sent := send_command (LORA_SYS_GET_VER_COMMAND session_config) w in
  outcome run = Ret tt
  /\ final run = world sent
  /\ exists response,
      value sent = Ret response
      /\ trace run
         = SessionLog INFO RequestingSystemVersion
           :: map Core (events sent)
           ++ [match response with
               | [] => SessionLog WARNING NoVersionResponse
               | _ => SessionLog INFO (ModuleVersion response)
               end].
Proof.
  intros run sent. subst run sent.
  destruct (send_command_total (LORA_SYS_GET_VER_COMMAND session_config) w)
    as [[r Hr] _].
  unfold get_system_version.
  rewrite session_bind_log. cbn [outcome final trace].
  assert (Hc : outcome (core (send_command
                                (LORA_SYS_GET_VER_COMMAND session_config)) w)
               = Ret r) by exact Hr.
  rewrite (session_bind_Ret _ _ w r Hc). cbn [outcome final trace core].
  destruct r; cbn; repeat split; eexists; split; try exact Hr; reflexivity.
Qed.

(** What the guarded part of [main] does when the port cannot be opened. *)
Lemma main_body_unopenable (passes : nat) (w : World) :
  main_body py config session_config false passes w
  = {| outcome := Ret Returned; final := w;
       trace := [SessionLog ERROR
                   (FailedToOpenSerialPort (SERIAL_PORT session_config)
                                           SerialException);
                 SessionLog ERROR (MainSerialException SerialException)] |}.
Proof.
  unfold main_body, session_try.
  rewrite (session_bind_Raise _ _ w (IsException SerialException)
             (f_equal outcome (open_connection_failure w))).
  rewrite open_connection_failure. reflexivity.
Qed.

(** X27.  When the port cannot be opened [main] stops there: the failure is
    logged by [open_connection] and again by [main], no command is sent, no
    line is read, and [main] returns with no port. *)
Theorem main_port_unopenable (passes : nat) (w : World) :
  main py config session_config false passes w
  = {| outcome := Ret Returned;
       final := {| port := NoPort; writes := writes w; reads := reads w;
                   polls := polls w; posts := posts w |};
       trace := [SessionLog ERROR
                   (FailedToOpenSerialPort (SERIAL_PORT session_config)
                                           SerialException);
                 SessionLog ERROR (MainSerialException SerialException)] |}.
Proof.
  unfold main.
  rewrite session_bind_set_port. cbn [outcome final trace set_port].
  rewrite main_body_unopenable. reflexivity.
Qed.


Lemma session_bind_prefix {A B} (m : Session A) (k : A -> Session B)
      (w : World) :
  exists rest, trace (session_bind m k w) = trace (m w) ++ rest.
Proof.
  unfold session_bind. destruct (outcome (m w)); cbn [trace];
    eexists; [reflexivity | symmetry; apply app_nil_r].
Qed.

Lemma session_try_prefix {A} (m : Session A)
      (h : BaseException -> option (Session A)) (w : World) :
  exists rest, trace (session_try m h w) = trace (m w) ++ rest.
Proof.
  unfold session_try. destruct (outcome (m w)) as [a|x].
  - exists []. symmetry. apply app_nil_r.
  - destruct (h x); cbn [trace]; eexists;
      [reflexivity | symmetry; apply app_nil_r].
Qed.

Lemma open_connection_success (w : World) :
  open_connection session_config true w
  = {| outcome := Ret tt;
       final := {| port := PortOpen; writes := writes w; reads := reads w;
                   polls := polls w; posts := posts w |};
       trace := [SessionLog INFO
                   (OpenedSerialPort (SERIAL_PORT session_config)
                                     (BAUD_RATE session_config))] |}.
Proof. reflexivity. Qed.

Lemma main_body_configures_first (passes : nat) (w : World) :
  exists rest,
    trace (main_body py config session_config true passes w)
    = SessionLog INFO (OpenedSerialPort (SERIAL_PORT session_config)
                                        (BAUD_RATE session_config))
      :: map Core
           (events (configure_gateway py config
                      {| port := PortOpen; writes := writes w;
                         reads := reads w; polls := polls w;
                         posts := posts w |}))
      ++ rest.
Proof.
  unfold main_body.
  match goal with
  | |- context [session_try ?m ?h w] =>
      destruct (session_try_prefix m h w) as (rest1 & E1); rewrite E1
  end.
  match goal with
  | |- context [session_bind ?m ?k w] =>
      destruct (session_bind_prefix m k w) as (rest3 & E3);
      pose proof (session_bind_Ret m k w tt
                    (f_equal outcome (open_connection_success w))) as E0
  end.
  rewrite E0, open_connection_success. cbn [outcome final trace].
  match goal with
  | |- context [session_bind ?m ?k ?w'] =>
      destruct (session_bind_prefix m k w') as (rest2 & E2); rewrite E2
  end.
  exists (rest2 ++ rest1). unfold core at 1. cbn [trace app].
  rewrite <- app_assoc. reflexivity.
Qed.

Lemma main_trace_prefix (openable : bool) (passes : nat) (w : World) :
  exists rest,
    trace (main py config session_config openable passes w)
    = trace (main_body py config session_config openable passes
               (final (set_port NoPort w)))
      ++ rest.
Proof.
  unfold main. rewrite session_bind_set_port. cbn [trace].
  destruct (outcome (main_body py config session_config openable passes
                       (final (set_port NoPort w)))) as [[|]|x];
    cbn [trace]; eexists; try reflexivity.
  symmetry. apply app_nil_r.
Qed.

(** X29.  When the port opens, the first thing [main] does with it is the
    configuration sequence: the record of the opening is followed by the
    events of one run of [configure_gateway] on the freshly opened port. *)
Theorem main_configures_first (passes : nat) (w : World) :
  exists rest,
    trace (main py config session_config true passes w)
    = SessionLog INFO (OpenedSerialPort (SERIAL_PORT session_config)
                                        (BAUD_RATE session_config))
      :: map Core
           (events (configure_gateway py config
                      {| port := PortOpen; writes := writes w;
                         reads := reads w; polls := polls w;
                         posts := posts w |}))
      ++ rest.
Proof.
  destruct (main_trace_prefix true passes w) as (rest1 & E1).
  destruct (main_body_configures_first passes (final (set_port NoPort w)))
    as (rest2 & E2).
  rewrite E1, E2. exists (rest2 ++ rest1).
  rewrite <- app_comm_cons, <- app_assoc. reflexivity.
Qed.

End SessionProperties.


Lemma close_connection_idempotent_witness :
  close_connection quiet_world
  = {| outcome := Ret tt;
       final := {| port := PortClosed; writes := []; reads := []; polls := [];
                   posts := [] |};
       trace := [SessionLog INFO SerialConnectionClosed] |}
  /\ close_connection
       {| port := PortClosed; writes := []; reads := []; polls := [];
          posts := [] |}
     = {| outcome := Ret tt;
          final := {| port := PortClosed; writes := []; reads := [];
                      polls := []; posts := [] |};
          trace := [] |}.
Proof.
  split; [reflexivity|].
  apply (proj1 (proj2 (proj2 (close_connection_idempotent
                                {| port := PortClosed; writes := [];
                                   reads := []; polls := []; posts := [] |})))).
  discriminate.
Defined.
